(** * Helios: ITIE block of the ACE reader, cylinder-on-axis surface and
    module environment.

    Shallow embedding of
      - src/Material/AceTable/AceReader/Blocks/ITIEBlock.cpp
      - src/Geometry/Surfaces/CylinderOnAxis.hpp
      - src/Environment/McEnvironment.hpp

    Conventions.
      - A C++ [double] is the real number it denotes: arithmetic on doubles is
        the exact arithmetic of [R] (rounding is not modelled).
      - A C++ [int] is an integer of [Z] in the range INT_MIN..INT_MAX.  The
        conversions the code performs (size_t to int, double to int) are
        written out; signed overflow has no defined behaviour in C++ and is
        not given one here.
      - [std::vector] is [list]; [std::map<std::string,_>] is [gmap string _];
        a pointer to an object shared between containers is an address into an
        explicit store. *)

From Stdlib Require Import ZArith Reals Lra Lia.
From stdpp Require Import base option list gmap strings.

(** * Part I: the program *)

Set Implicit Arguments.

(** ** C++ scalars *)

(** A [double] is the real number it denotes. *)
Abbreviation double := R (only parsing).

Module CInt.
Local Open Scope Z_scope.

Definition INT_MAX : Z := 2147483647.
Definition INT_MIN : Z := -2147483648.

Definition int_range (z : Z) : Prop := INT_MIN <= z <= INT_MAX.

#[global] Instance int_range_dec z : Decision (int_range z).
Proof. unfold int_range. apply _. Defined.

(** Conversion of an integer value to [int]: the value modulo 2^32,
    taken in the signed range. *)
Definition to_int (z : Z) : Z := (z + 2 ^ 31) mod 2 ^ 32 - 2 ^ 31.

(** Arithmetic on [size_t] (64 bits, unsigned) wraps. *)
Definition to_size_t (z : Z) : Z := z mod 2 ^ 64.

(** [(int) x] for a double [x]: truncation toward zero; outside the range
    of [int] the conversion has no defined result. *)
Definition Ztrunc (x : R) : Z :=
  if Rle_dec 0 x then Zfloor x else Zceil x.

Definition int_of_double (x : R) : option Z :=
  let z := Ztrunc x in
  if decide (int_range z) then Some z else None.

(** [(double) n] for an int [n] is exact. *)
Definition double_of_int (n : Z) : R := IZR n.

End CInt.

(** ** The ITIE block of the ACE reader (namespace Ace) *)

Module Ace.
Import CInt.
Local Open Scope Z_scope.

(** Modelled from the spec: the sizes of the NXS and JXS arrays (declared in
    headers that are not among the sources): 16 and 32 integers. *)
Definition nxs_size : nat := 16.
Definition jxs_size : nat := 32.

(** Modelled from the spec: the read cursor of the ACEBlock base class
    (ACEBlock.hpp and AceUtils.hpp are not among the sources).  XSS is a
    vector of doubles; the cursor is the part of it that is still to be read; [setBegin] positions it,
    [getXSS] consumes one count word or an array of the given length.
    Reading outside the array, and a negative length, have no defined
    result. *)
Definition setBegin (xss : list double) (offset : Z) : option (list double) :=
  if decide (0 <= offset <= Z.of_nat (length xss))
  then Some (drop (Z.to_nat offset) xss) else None.

Definition getXSS_int (it : list double) : option (Z * list double) :=
  match it with
  | [] => None
  | w :: it' => n ← int_of_double w; Some (n, it')
  end.

Definition getXSS_vector (size : Z) (it : list double)
  : option (list double * list double) :=
  if decide (0 <= size <= Z.of_nat (length it))
  then Some (take (Z.to_nat size) it, drop (Z.to_nat size) it) else None.

(** Modelled from the spec: [putXSS] appends the words of its argument to the
    output stream; the stream is the list of the words written so far (the
    text format of a word is not modelled). *)
Definition putXSS_int (data : Z) (xss : list double) : list double :=
  xss ++ [double_of_int data].

Definition putXSS_vector (data : list double) (xss : list double) : list double :=
  xss ++ data.

(** Modelled from the spec: [ACEBlock::shiftJXSArray], which is not among the
    sources: it adds the block's size to every [jxs_new[j]] whose
    corresponding [jxs_old[j]] is greater than [jxs_old[slot]].  The loop
    visits the [jxs_size] entries in order and updates [jxs_new] in place. *)
Fixpoint shiftJXSArray_from (n i : nat) (jxs_old jxs_new : list Z)
  (pivot size : Z) : list Z :=
  match n with
  | O => jxs_new
  | S n' =>
    let jxs_new' :=
      if decide (jxs_old !!! i > pivot)
      then <[i := jxs_new !!! i + size]> jxs_new
      else jxs_new in
    shiftJXSArray_from n' (S i) jxs_old jxs_new' pivot size
  end.

Definition shiftJXSArray (jxs_old jxs_new : list Z) (slot : nat) (size : Z)
  : list Z :=
  shiftJXSArray_from jxs_size 0 jxs_old jxs_new (jxs_old !!! slot) size.

(** The data members of [ITIEBlock]. *)
Record ITIEBlock : Type := mkITIEBlock {
  energy : list double;
  sigma_in : list double
}.

(** Modelled from the spec: the header of a table: NXS and JXS are arrays of
    ints of the fixed sizes, and the length of XSS is [NXS[0]]. *)
Definition table_header (nxs jxs : list Z) (xss : list double) : Prop :=
  length nxs = nxs_size /\ length jxs = jxs_size /\
  Forall int_range nxs /\ Forall int_range jxs /\
  nxs !! 0%nat = Some (Z.of_nat (length xss)).

Section ITIE.

(** [SabTable::ITIE], the JXS slot of the block (SabTable.hpp is not among
    the sources). *)
Variable ITIE : nat.

(** [ITIEBlock::ITIEBlock(nxs, jxs, xss, ace_table)] *)
Definition ITIEBlock_ctor (nxs jxs : list Z) (xss : list double)
  : option ITIEBlock :=
  ptr ← jxs !! ITIE;
  it ← setBegin xss (ptr - 1);
  '(table_length, it) ← getXSS_int it;
  '(energy, it) ← getXSS_vector table_length it;
  '(sigma_in, it) ← getXSS_vector table_length it;
  Some (mkITIEBlock energy sigma_in).

(** [ITIEBlock::dump(xss)]: [int length = energy.size()] converts a size_t
    to int. *)
Definition dump (b : ITIEBlock) (xss : list double) : list double :=
  let length := to_int (to_size_t (Z.of_nat (length (energy b)))) in
  let xss := putXSS_int length xss in
  let xss := putXSS_vector (energy b) xss in
  putXSS_vector (sigma_in b) xss.

(** [ITIEBlock::updateData()] *)
Definition updateData (b : ITIEBlock) : ITIEBlock := b.

(** [ITIEBlock::getType()] *)
Definition getType (b : ITIEBlock) : nat := ITIE.

(** [ITIEBlock::getSize()]: [energy.size() * 2 + 1] is computed on size_t and
    returned as an int. *)
Definition getSize (b : ITIEBlock) : Z :=
  to_int (to_size_t (Z.of_nat (length (energy b)) * 2 + 1)).

(** [ITIEBlock::updatePointers(nxs, jxs_old, jxs_new)]: the result is the new
    content of [jxs_new]; [nxs] is not written. *)
Definition updatePointers (b : ITIEBlock) (nxs jxs_old jxs_new : list Z)
  : list Z :=
  shiftJXSArray jxs_old jxs_new ITIE (getSize b).

(** The ITIE blocks of a run: those the constructor read from a table. *)
Definition loaded (b : ITIEBlock) : Prop :=
  exists nxs jxs xss,
    table_header nxs jxs xss /\ ITIEBlock_ctor nxs jxs xss = Some b.

End ITIE.

(** A table with an ITIE block of two energies, followed by four more
    words that another block owns. *)
Definition example_nxs : list Z := 9 :: replicate 15 0.
Definition example_jxs : list Z := 1 :: 6 :: replicate 30 0.
Definition example_xss : list double := [2; 10; 20; 3; 4; 7; 7; 7; 7]%R.
Definition example_block : ITIEBlock := mkITIEBlock [10; 20]%R [3; 4]%R.

End Ace.

(** ** Cylinder on an axis (namespace Helios, geometry) *)

Module Geometry.
Local Open Scope R_scope.

#[global] Instance double_inhabited : Inhabited double := populate 0.

(** The template parameter [axis] ranges over the three constants [xaxis],
    [yaxis], [zaxis] (0, 1, 2), the indices of a coordinate. *)
Inductive Axis : Type := xaxis | yaxis | zaxis.

#[global] Instance Axis_eq_dec : EqDecision Axis.
Proof. solve_decision. Defined.

(** [Coordinate] and [Direction]: vectors of three doubles, indexed by an
    axis, with the componentwise operators the surface uses. *)
Record Coordinate : Type := mkCoordinate {
  coord_x : double;
  coord_y : double;
  coord_z : double
}.

Definition Direction : Type := Coordinate.

(** [v[i]] *)
Definition get (v : Coordinate) (i : Axis) : double :=
  match i with
  | xaxis => coord_x v
  | yaxis => coord_y v
  | zaxis => coord_z v
  end.

(** [v[i] = a] *)
Definition set (v : Coordinate) (i : Axis) (a : double) : Coordinate :=
  match i with
  | xaxis => mkCoordinate a (coord_y v) (coord_z v)
  | yaxis => mkCoordinate (coord_x v) a (coord_z v)
  | zaxis => mkCoordinate (coord_x v) (coord_y v) a
  end.

(** [u + v], [u - v], [v /= a] *)
Definition add (u v : Coordinate) : Coordinate :=
  mkCoordinate (coord_x u + coord_x v) (coord_y u + coord_y v)
               (coord_z u + coord_z v).

Definition sub (u v : Coordinate) : Coordinate :=
  mkCoordinate (coord_x u - coord_x v) (coord_y u - coord_y v)
               (coord_z u - coord_z v).

Definition div (v : Coordinate) (a : double) : Coordinate :=
  mkCoordinate (coord_x v / a) (coord_y v / a) (coord_z v / a).

(** Modelled from the spec: [dotProduct<axis>] of SurfaceUtils.hpp, which is
    not among the sources: the dot product over the two components that are
    not on the axis. *)
Definition dotProduct (axis : Axis) (u v : Coordinate) : double :=
  match axis with
  | xaxis => coord_y u * coord_y v + coord_z u * coord_z v
  | yaxis => coord_x u * coord_x v + coord_z u * coord_z v
  | zaxis => coord_x u * coord_x v + coord_y u * coord_y v
  end.

(** Modelled from the spec: the members of the base class [Surface]
    (Surface.hpp is not among the sources): the user id and the flags
    (reflective, vacuum), and the error of a failed construction. *)
Definition SurfaceId : Type := string.

Record SurfaceInfo : Type := mkSurfaceInfo {
  reflective : bool;
  vacuum : bool
}.

Record Surface : Type := mkSurface {
  getUserId : SurfaceId;
  getFlags : SurfaceInfo
}.

Inductive SurfaceError : Type :=
| BadSurfaceCreation (surid : SurfaceId) (reason : string).

(** [CylinderOnAxis<axis>]: the base class and the two data members. *)
Record CylinderOnAxis (axis : Axis) : Type := mkCylinderOnAxis {
  surface : Surface;
  radius : double;
  point : Coordinate
}.

(** [CylinderOnAxis(surid, flags, radius, point)] *)
Definition CylinderOnAxis_new (axis : Axis) (surid : SurfaceId)
  (flags : SurfaceInfo) (radius : double) (point : Coordinate)
  : CylinderOnAxis axis :=
  mkCylinderOnAxis axis (mkSurface surid flags) radius point.

(** One turn of the loop of the constructor: [point[i] = coeffs[k + 1]; k++]
    when [i] is not the axis. *)
Definition point_step (axis : Axis) (coeffs : list double)
  (st : Coordinate * nat) (i : Axis) : Coordinate * nat :=
  let '(point, k) := st in
  if decide (i <> axis)
  then (set point i (coeffs !!! (k + 1)%nat), S k)
  else (point, k).

(** [CylinderOnAxis(surid, coeffs, flags)].  The member [point] is not
    initialised before the body runs; the body assigns its three components,
    so the model starts from the null vector. *)
Definition CylinderOnAxis_ctor (axis : Axis) (surid : SurfaceId)
  (coeffs : list double) (flags : SurfaceInfo)
  : SurfaceError + CylinderOnAxis axis :=
  if decide (length coeffs = 3%nat) then
    let radius := coeffs !!! 0%nat in
    let point := set (mkCoordinate 0 0 0) axis 0 in
    let '(point, _) :=
      fold_left (point_step axis coeffs) [xaxis; yaxis; zaxis] (point, 0%nat) in
    inr (mkCylinderOnAxis axis (mkSurface surid flags) radius point)
  else inl (BadSurfaceCreation surid "Bad number of coefficients").

Section Cylinder.

Context {axis : Axis}.

(** The shared helper [quadraticIntersect(a, k, c, sense, distance)] of
    SurfaceUtils.hpp is not among the sources; it returns the flag and the
    new value of [distance]. *)
Variable quadraticIntersect :
  double -> double -> double -> bool -> double -> bool * double.

(** [normal(position, vnormal)]: the result is the value left in [vnormal]. *)
Definition normal (s : CylinderOnAxis axis) (position : Coordinate)
  : Direction :=
  let vnormal := sub position (point s) in
  let vnormal := set vnormal axis 0 in
  div vnormal (radius s).

(** [function(position)] *)
Definition function (s : CylinderOnAxis axis) (position : Coordinate)
  : double :=
  let trpos := sub position (point s) in
  dotProduct axis trpos trpos - radius s * radius s.

(** [intersect(position, dir, sense, distance)] *)
Definition intersect (s : CylinderOnAxis axis) (position : Coordinate)
  (dir : Direction) (sense : bool) (distance : double) : bool * double :=
  let a := 1 - get dir axis * get dir axis in
  let trpos := sub position (point s) in
  let k := dotProduct axis dir trpos in
  let c := dotProduct axis trpos trpos - radius s * radius s in
  quadraticIntersect a k c sense distance.

(** [transformate(trans)] *)
Definition transformate (s : CylinderOnAxis axis) (trans : Direction)
  : CylinderOnAxis axis :=
  let new_point := add (point s) trans in
  CylinderOnAxis_new axis (getUserId (surface s)) (getFlags (surface s))
    (radius s) new_point.

End Cylinder.

(** *** Vocabulary of the statements *)

(** The point [p + t d] of a ray. *)
Definition ray (p : Coordinate) (d : Direction) (t : double) : Coordinate :=
  mkCoordinate (coord_x p + t * coord_x d) (coord_y p + t * coord_y d)
               (coord_z p + t * coord_z d).

(** The sum of [f i] over the axes [i] other than [axis]. *)
Definition sum_off_axis (axis : Axis) (f : Axis -> double) : double :=
  fold_right Rplus 0
    (map f (filter (fun i => i <> axis) [xaxis; yaxis; zaxis])).

(** Euclidean length of a vector. *)
Definition norm (v : Coordinate) : double :=
  sqrt (coord_x v * coord_x v + coord_y v * coord_y v + coord_z v * coord_z v).

(** *** Concrete surfaces *)

(** A cylinder along z of radius 1 through the origin, and the ray from
    (2,0,0) towards -x. *)
Definition unit_cylinder_z : CylinderOnAxis zaxis :=
  CylinderOnAxis_new zaxis "1" (mkSurfaceInfo false false) 1
    (mkCoordinate 0 0 0).

Definition no_intersect (a k c : double) (sense : bool) (distance : double)
  : bool * double := (false, distance).

(** A cylinder along z of radius 2 through (1,1,0), and a point on it. *)
Definition cylinder_z_2 : CylinderOnAxis zaxis :=
  CylinderOnAxis_new zaxis "2" (mkSurfaceInfo false false) 2
    (mkCoordinate 1 1 0).

(** *** The other members of the class *)

(** [name()] *)
Definition name (axis : Axis) (s : CylinderOnAxis axis) : string :=
  match axis with
  | xaxis => "c/x"
  | yaxis => "c/y"
  | zaxis => "c/z"
  end.

(** A [Surface*] that points to a cylinder on some axis, and the type
    [Surface::Constructor] of the functions that build one. *)
Definition SurfacePtr : Type := {axis : Axis & CylinderOnAxis axis}.

Definition Constructor : Type :=
  SurfaceId -> list double -> SurfaceInfo -> SurfaceError + SurfacePtr.

(** [new CylinderOnAxis<axis>(surid, coeffs, flags)]: the exception of the
    constructor propagates. *)
Definition new_CylinderOnAxis (axis : Axis) : Constructor :=
  fun surid coeffs flags =>
    match CylinderOnAxis_ctor axis surid coeffs flags with
    | inl e => inl e
    | inr s => inr (existT axis s)
    end.

(** The static constructor functions. *)
Definition xAxisConstructor : Constructor := new_CylinderOnAxis xaxis.
Definition yAxisConstructor : Constructor := new_CylinderOnAxis yaxis.
Definition zAxisConstructor : Constructor := new_CylinderOnAxis zaxis.

(** [constructor()] *)
Definition constructor (axis : Axis) (s : CylinderOnAxis axis) : Constructor :=
  match axis with
  | xaxis => xAxisConstructor
  | yaxis => yAxisConstructor
  | zaxis => zAxisConstructor
  end.

(** The name of the surface a [Surface*] points to (a virtual call). *)
Definition name_of (s : SurfacePtr) : string := name (projT2 s).

(** The unit vector of an axis, and the null vector. *)
Definition unit_vector (axis : Axis) : Direction :=
  set (mkCoordinate 0 0 0) axis 1.

Definition null_vector : Direction := mkCoordinate 0 0 0.

(** A cylinder of radius 2 along x through (0,1,1). *)
Definition cylinder_x_2 : CylinderOnAxis xaxis :=
  CylinderOnAxis_new xaxis "4" (mkSurfaceInfo true false) 2
    (mkCoordinate 0 1 1).

End Geometry.

(** ** The module environment (namespace Helios, McEnvironment) *)

Module Environment.

(** The exception the environment throws. *)
Inductive Exception : Type :=
| GeneralError (msg : string).

(** The result of a call: a value, an exception, or no defined behaviour
    (a pointer that points to no object is dereferenced). *)
Set Contextual Implicit.
Set Maximal Implicit Insertion.

Inductive Outcome (A : Type) : Type :=
| Return (a : A)
| Throw (e : Exception)
| Undefined.

Unset Maximal Implicit Insertion.
Unset Contextual Implicit.

(** [McObject*] and [McEnvironment*] are addresses. *)
Abbreviation ObjectPtr := nat (only parsing).
Abbreviation EnvironmentPtr := nat (only parsing).

(** Modelled from the spec: [McObject] (McModule.hpp is not among the
    sources): a parsed object names the module it belongs to and carries a
    back-reference to the environment it passes through. *)
Record McObject : Type := mkMcObject {
  getModuleName : string;
  getUserId : string;
  getEnvironment : option EnvironmentPtr
}.

Definition setEnvironment (obj : McObject) (env : EnvironmentPtr) : McObject :=
  mkMcObject (getModuleName obj) (getUserId obj) (Some env).

Section McEnvironment.

(** [McModule], the base class of the modules (McModule.hpp). *)
Variable McModule : Type.

(** Modelled from the spec: [ModuleFactory] (McModule.hpp is not among the
    sources): a factory has a name and creates a module from a vector of
    objects; while it does so an object may ask its environment for the
    modules already constructed.  A factory reads the objects and the loaded
    modules, changes neither, and may throw. *)
Record ModuleFactory : Type := mkModuleFactory {
  getName : string;
  create : gmap ObjectPtr McObject -> gmap string McModule ->
           list ObjectPtr -> Exception + McModule
}.

(** The three maps of [McEnvironment] (the parser pointer and the MPI
    communicator take no part in the functions below). *)
Record McEnvironment : Type := mkMcEnvironment {
  factory_map : gmap string ModuleFactory;
  module_map : gmap string McModule;
  object_map : gmap string (list ObjectPtr)
}.

(** The state of a run: the objects, by address, and the environment. *)
Record World : Type := mkWorld {
  objects : gmap ObjectPtr McObject;
  environment : McEnvironment
}.

(** [registerFactory(factory)] *)
Definition registerFactory (factory : ModuleFactory) (w : World) : World :=
  let env := environment w in
  mkWorld (objects w)
    (mkMcEnvironment (<[getName factory := factory]> (factory_map env))
       (module_map env) (object_map env)).

(** [pushObject(object)]: [object_map[name]] creates an empty vector when
    the name has none. *)
Definition pushObject (this : EnvironmentPtr) (object : ObjectPtr) (w : World)
  : Outcome unit * World :=
  match objects w !! object with
  | None => (Undefined, w)
  | Some obj =>
    let env := environment w in
    let name := getModuleName obj in
    let staged := default [] (object_map env !! name) in
    (Return tt,
     mkWorld (<[object := setEnvironment obj this]> (objects w))
       (mkMcEnvironment (factory_map env) (module_map env)
          (<[name := staged ++ [object]]> (object_map env))))
  end.

(** [isModuleSet<Module>()], with [module = Module::name()] *)
Definition isModuleSet (module : string) (w : World) : bool :=
  bool_decide (is_Some (module_map (environment w) !! module)).

(** [setupModule<Module>()], with [module = Module::name()] *)
Definition setupModule (module : string) (w : World) : Outcome unit * World :=
  let env := environment w in
  match factory_map env !! module with
  | Some factory =>
    match object_map env !! module with
    | None => (Return tt, w)
    | Some definitions =>
      match create factory (objects w) (module_map env) definitions with
      | inl e => (Throw e, w)
      | inr mod_ =>
        (Return tt,
         mkWorld (objects w)
           (mkMcEnvironment (factory_map env)
              (<[module := mod_]> (module_map env)) (object_map env)))
      end
    end
  | None =>
    (Throw (GeneralError
       ("Cannot create module *" +:+ module +:+ "* (no factory is registered) ")),
     w)
  end.

(** The loop of [createModule]: the objects of the module are given the
    environment and appended to [definitions]. *)
Fixpoint collect_definitions (this : EnvironmentPtr) (module : string)
  (user_definitions : list ObjectPtr) (objs : gmap ObjectPtr McObject)
  (definitions : list ObjectPtr)
  : option (list ObjectPtr * gmap ObjectPtr McObject) :=
  match user_definitions with
  | [] => Some (definitions, objs)
  | it_obj :: rest =>
    match objs !! it_obj with
    | None => None
    | Some obj =>
      if decide (getModuleName obj = module)
      then collect_definitions this module rest
             (<[it_obj := setEnvironment obj this]> objs)
             (definitions ++ [it_obj])
      else collect_definitions this module rest objs definitions
    end
  end.

Section Template.

(** The template parameter [Module]: a class of modules with its static
    [name()]; [dynamic_cast<Module*>] gives no module (a null pointer) when
    the module is not of that class. *)
Variable Module : Type.
Variable name : string.
Variable dynamic_cast : McModule -> option Module.

(** [getModule<Module>()] *)
Definition getModule (w : World) : Outcome (option Module) :=
  match module_map (environment w) !! name with
  | Some mod_ => Return (dynamic_cast mod_)
  | None =>
    Throw (GeneralError
      ("The definition of the module *" +:+ name +:+ "* is missing on the input"))
  end.

(** [createModule<Module>(user_definitions)] *)
Definition createModule (this : EnvironmentPtr)
  (user_definitions : list ObjectPtr) (w : World)
  : Outcome (option Module) * World :=
  let env := environment w in
  match factory_map env !! name with
  | Some factory =>
    match collect_definitions this name user_definitions (objects w) [] with
    | None => (Undefined, w)
    | Some (definitions, objs) =>
      let w' := mkWorld objs env in
      if decide (length definitions = 0%nat) then
        (Throw (GeneralError
           ("Cannot create module *" +:+ name +:+ "*. " +:+
            "The objects supplied by the user does not contain information about that module")),
         w')
      else
        match create factory objs (module_map env) definitions with
        | inl e => (Throw e, w')
        | inr mod_ => (Return (dynamic_cast mod_), w')
        end
    end
  | None =>
    (Throw (GeneralError
       ("Cannot create module *" +:+ name +:+ "* (no factory is registered) ")),
     w)
  end.

End Template.

(** *** Vocabulary of the statements *)

(** The objects of the module among the user's definitions. *)
Definition of_module (module : string) (objs : gmap ObjectPtr McObject)
  (p : ObjectPtr) : Prop :=
  getModuleName <$> objs !! p = Some module.

#[global] Instance of_module_dec module objs p :
  Decision (of_module module objs p).
Proof. unfold of_module. apply _. Defined.

End McEnvironment.

(** *** A run of the environment *)

(** A module is the vector of the objects it was made of; the factory of
    the geometry keeps the definitions it is given. *)
Definition geometry_factory : ModuleFactory (list ObjectPtr) :=
  mkModuleFactory "geometry" (fun _ _ definitions => inr definitions).

(** Two parsed objects and an empty environment (at address 0). *)
Definition world0 : World (list ObjectPtr) :=
  mkWorld {[ 1%nat := mkMcObject "geometry" "c1" None;
             2%nat := mkMcObject "materials" "m1" None ]}
          (mkMcEnvironment ∅ ∅ ∅).

Definition world1 : World (list ObjectPtr) :=
  (pushObject 0%nat 1%nat (registerFactory geometry_factory world0)).2.

(** *** The other members of the class *)

Section McEnvironmentMembers.

Variable McModule : Type.

(** [pushObjects(begin, end)]: the loop runs the two statements of
    [pushObject] on each object of the range, in order. *)
Fixpoint pushObjects (this : EnvironmentPtr) (range : list ObjectPtr)
  (w : World McModule) : Outcome unit * World McModule :=
  match range with
  | [] => (Return tt, w)
  | object :: rest =>
    match pushObject this object w with
    | (Return _, w') => pushObjects this rest w'
    | (Throw e, w') => (Throw e, w')
    | (Undefined, w') => (Undefined, w')
    end
  end.

Section ObjectTemplate.

(** The template parameters [Module] and [Object] of [getObject]; the
    lookup [Module::getObject<Object>(id)] of the module is not among the
    sources and is a parameter.  A null [modPtr] is dereferenced when the
    loaded module is not of class [Module]. *)
Variable Module : Type.
Variable Object : Type.
Variable name : string.
Variable dynamic_cast : McModule -> option Module.
Variable Module_getObject : Module -> string -> Outcome (list Object).

(** [getObject<Module,Object>(id)] *)
Definition getObject (id : string) (w : World McModule)
  : Outcome (list Object) :=
  match module_map (environment w) !! name with
  | Some mod_ =>
    match dynamic_cast mod_ with
    | Some modPtr => Module_getObject modPtr id
    | None => Undefined
    end
  | None =>
    Throw (GeneralError
      ("The module *" +:+ name +:+ "* is not loaded on the environment"))
  end.

End ObjectTemplate.

(** The staged objects are in order: every vector of the object map is not
    empty, and each object in it exists, belongs to the module the vector is
    staged under and refers back to this environment. *)
Definition staged_here (this : EnvironmentPtr) (w : World McModule) : Prop :=
  forall module definitions,
    object_map (environment w) !! module = Some definitions ->
    definitions <> [] /\
    Forall (fun p => exists obj,
              objects w !! p = Some obj /\
              getModuleName obj = module /\
              getEnvironment obj = Some this) definitions.

End McEnvironmentMembers.

(** An environment with nothing registered, staged or loaded. *)
Definition empty_world (McModule : Type)
  (objs : gmap ObjectPtr McObject) : World McModule :=
  mkWorld objs (mkMcEnvironment ∅ ∅ ∅).

End Environment.

(** ** Universes (namespace Helios, Universe.cpp) *)

Module Universes.

(** [Cell*] and [Universe*] are addresses. *)
Abbreviation CellPtr := nat (only parsing).
Abbreviation UniversePtr := nat (only parsing).

Definition UniverseId : Type := string.

(** [Universe::BASE] *)
Definition BASE : UniverseId := "0".

(** Modelled from the spec: [Cell] (Cell.hpp is not among the sources): a
    cell has a user id and is linked to the universe it belongs to by
    [setParent]. *)
Record Cell : Type := mkCell {
  cell_user_id : string;
  cell_parent : option UniversePtr
}.

Definition setParent (c : Cell) (u : UniversePtr) : Cell :=
  mkCell (cell_user_id c) (Some u).

(** The data members of [Universe] the file writes: the user id, the parent
    cell (null for the root) and the cells, in the order they were added. *)
Record Universe : Type := mkUniverse {
  user_id : UniverseId;
  parent : option CellPtr;
  cells : list CellPtr
}.

(** [Universe(user_id, parent)]: the vector of cells starts empty. *)
Definition Universe_ctor (user_id : UniverseId) (parent : option CellPtr)
  : Universe :=
  mkUniverse user_id parent [].

(** The universes and the cells of a geometry, by address. *)
Record Store : Type := mkStore {
  universes : gmap UniversePtr Universe;
  cell_store : gmap CellPtr Cell
}.

(** [addCell(cell)] on the universe at [this]; no result when [this] or
    [cell] points to nothing. *)
Definition addCell (this : UniversePtr) (cell : CellPtr) (st : Store)
  : option Store :=
  match universes st !! this, cell_store st !! cell with
  | Some u, Some c =>
    Some (mkStore
            (<[this := mkUniverse (user_id u) (parent u) (cells u ++ [cell])]>
               (universes st))
            (<[cell := setParent c this]> (cell_store st)))
  | _, _ => None
  end.

(** *** Vocabulary of the statements *)

(** [addCell] called on each cell of a range, in order. *)
Fixpoint addCells (this : UniversePtr) (range : list CellPtr) (st : Store)
  : option Store :=
  match range with
  | [] => Some st
  | cell :: rest =>
    match addCell this cell st with
    | Some st' => addCells this rest st'
    | None => None
    end
  end.

(** Every cell listed in a universe exists and has that universe as its
    parent. *)
Definition linked (st : Store) : Prop :=
  forall u U c,
    universes st !! u = Some U -> c ∈ cells U ->
    exists C, cell_store st !! c = Some C /\ cell_parent C = Some u.

(** *** A geometry with two universes and two cells *)

Definition store0 : Store :=
  mkStore {[ 0%nat := Universe_ctor BASE None;
             1%nat := Universe_ctor "1" (Some 10%nat) ]}
          {[ 10%nat := mkCell "a" None; 11%nat := mkCell "b" None ]}.

(** The same after cell 10 was added to universe 0. *)
Definition store1 : Store :=
  mkStore {[ 0%nat := mkUniverse BASE None [10%nat];
             1%nat := Universe_ctor "1" (Some 10%nat) ]}
          {[ 10%nat := mkCell "a" (Some 0%nat); 11%nat := mkCell "b" None ]}.

End Universes.

(** * Part II: verification *)

Unset Implicit Arguments.

(** ** Machine integers *)

Module CIntTheory.
Import CInt.
Local Open Scope Z_scope.

Lemma to_int_id z : int_range z -> to_int z = z.
Proof.
  unfold int_range, INT_MIN, INT_MAX, to_int. intros H.
  rewrite Z.mod_small; lia.
Qed.

Lemma to_int_range z : int_range (to_int z).
Proof.
  unfold int_range, INT_MIN, INT_MAX, to_int.
  pose proof (Z.mod_pos_bound (z + 2 ^ 31) (2 ^ 32) ltac:(lia)). lia.
Qed.

Lemma to_size_t_id z : 0 <= z < 2 ^ 64 -> to_size_t z = z.
Proof. intros H. unfold to_size_t. now apply Z.mod_small. Qed.

Lemma Ztrunc_IZR n : Ztrunc (IZR n) = n.
Proof.
  unfold Ztrunc. destruct (Rle_dec 0 (IZR n)).
  - apply ZfloorZ.
  - unfold Zceil. rewrite <- opp_IZR, ZfloorZ. lia.
Qed.

Lemma int_of_double_of_int n :
  int_range n -> int_of_double (double_of_int n) = Some n.
Proof.
  intros H. unfold int_of_double, double_of_int.
  rewrite Ztrunc_IZR. now rewrite decide_True.
Qed.

End CIntTheory.

(** ** The ITIE block *)

Module AceTheory.
Import CInt CIntTheory Ace.
Local Open Scope Z_scope.

Section ITIE.

Variable ITIE : nat.

(** *** Facts on the cursor and on the stream *)

Lemma table_header_xss_int nxs jxs xss :
  table_header nxs jxs xss -> Z.of_nat (length xss) <= INT_MAX.
Proof.
  intros (_ & _ & Hnxs & _ & H0).
  rewrite Forall_lookup in Hnxs.
  destruct (Hnxs _ _ H0) as [_ Hmax]. exact Hmax.
Qed.

Lemma setBegin_Some xss offset it :
  setBegin xss offset = Some it ->
  0 <= offset /\ Z.of_nat (length it) = Z.of_nat (length xss) - offset.
Proof.
  unfold setBegin. case_decide as Hoff; [|discriminate].
  intros [= <-]. rewrite length_drop. lia.
Qed.

Lemma getXSS_int_Some it n it' :
  getXSS_int it = Some (n, it') ->
  int_range n /\ length it = S (length it').
Proof.
  destruct it as [|w it0]; simpl; [discriminate|].
  unfold int_of_double. case_decide as Hn; simpl; [|discriminate].
  intros [= <- <-]. split; [exact Hn | reflexivity].
Qed.

Lemma getXSS_vector_Some size it v it' :
  getXSS_vector size it = Some (v, it') ->
  0 <= size /\ Z.of_nat (length v) = size /\
  Z.of_nat (length it') = Z.of_nat (length it) - size.
Proof.
  unfold getXSS_vector. case_decide as Hsz; [|discriminate].
  intros [= <- <-]. rewrite length_take, length_drop. lia.
Qed.

Lemma getXSS_vector_app (v rest : list double) :
  getXSS_vector (Z.of_nat (length v)) (v ++ rest) = Some (v, rest).
Proof.
  unfold getXSS_vector. rewrite decide_True.
  - rewrite Nat2Z.id, take_app_length, drop_app_length. reflexivity.
  - rewrite length_app. lia.
Qed.

(** What the constructor guarantees of the block it builds, on a table whose
    XSS length is the int [NXS[0]]. *)
Lemma loaded_inv b :
  loaded ITIE b ->
  length (sigma_in b) = length (energy b) /\
  2 * Z.of_nat (length (energy b)) + 1 <= INT_MAX.
Proof.
  intros (nxs & jxs & xss & Hhdr & Hctor).
  apply table_header_xss_int in Hhdr.
  unfold ITIEBlock_ctor in Hctor.
  destruct (jxs !! ITIE) as [ptr|]; simpl in Hctor; [|discriminate].
  destruct (setBegin xss (ptr - 1)) as [it0|] eqn:Hbegin;
    simpl in Hctor; [|discriminate].
  destruct (getXSS_int it0) as [[n it1]|] eqn:Hlen;
    simpl in Hctor; [|discriminate].
  destruct (getXSS_vector n it1) as [[e it2]|] eqn:He;
    simpl in Hctor; [|discriminate].
  destruct (getXSS_vector n it2) as [[s it3]|] eqn:Hs;
    simpl in Hctor; [|discriminate].
  injection Hctor as <-. simpl.
  apply setBegin_Some in Hbegin. apply getXSS_int_Some in Hlen.
  apply getXSS_vector_Some in He. apply getXSS_vector_Some in Hs.
  split; lia.
Qed.

(** Reading a length word, the energies and the cross-sections at the place
    JXS points to. *)
Lemma ITIEBlock_ctor_words nxs jxs (pre e s post : list double) :
  jxs !! ITIE = Some (Z.of_nat (length pre) + 1) ->
  length s = length e ->
  Z.of_nat (length e) <= INT_MAX ->
  ITIEBlock_ctor ITIE nxs jxs
    (pre ++ double_of_int (Z.of_nat (length e)) :: e ++ s ++ post)
  = Some (mkITIEBlock e s).
Proof.
  intros Hjxs Hlen Hint. unfold ITIEBlock_ctor. rewrite Hjxs. simpl.
  unfold setBegin. rewrite decide_True by (rewrite length_app; lia).
  replace (Z.to_nat (Z.of_nat (length pre) + 1 - 1)) with (length pre) by lia.
  rewrite drop_app_length. simpl.
  rewrite int_of_double_of_int by (unfold int_range, INT_MIN; lia). simpl.
  rewrite getXSS_vector_app. simpl.
  rewrite <- Hlen, getXSS_vector_app. reflexivity.
Qed.

Lemma dump_words b out :
  Z.of_nat (length (energy b)) <= INT_MAX ->
  dump b out =
  out ++ double_of_int (Z.of_nat (length (energy b))) :: energy b ++ sigma_in b.
Proof.
  intros Hint. unfold dump, putXSS_vector, putXSS_int.
  rewrite to_size_t_id, to_int_id.
  - rewrite <- !app_assoc. reflexivity.
  - unfold int_range, INT_MIN. lia.
  - unfold INT_MAX in Hint. lia.
Qed.

Lemma getSize_exact b :
  2 * Z.of_nat (length (energy b)) + 1 <= INT_MAX ->
  getSize b = 2 * Z.of_nat (length (energy b)) + 1.
Proof.
  intros Hint. unfold getSize.
  rewrite to_size_t_id, to_int_id.
  - lia.
  - unfold int_range, INT_MIN. lia.
  - unfold INT_MAX in Hint. lia.
Qed.

(** *** The loop of [shiftJXSArray] *)

Lemma shiftJXSArray_from_length n i jxs_old jxs_new pivot size :
  length (shiftJXSArray_from n i jxs_old jxs_new pivot size) = length jxs_new.
Proof.
  revert i jxs_new. induction n as [|n IH]; intros i jxs_new; simpl.
  - reflexivity.
  - rewrite IH.
    destruct (decide (jxs_old !!! i > pivot));
      [apply length_insert | reflexivity].
Qed.

Lemma shiftJXSArray_from_lookup n i jxs_old jxs_new pivot size (j : nat) :
  shiftJXSArray_from n i jxs_old jxs_new pivot size !! j =
  if decide ((i <= j < i + n)%nat /\ jxs_old !!! j > pivot)
  then (fun x => x + size) <$> jxs_new !! j
  else jxs_new !! j.
Proof.
  revert i jxs_new. induction n as [|n IH]; intros i jxs_new; simpl.
  - rewrite decide_False by lia. reflexivity.
  - rewrite IH. destruct (decide (i = j)) as [->|Hij].
    + rewrite (decide_False (P := (S j <= j < _)%nat /\ _)) by lia.
      destruct (decide (jxs_old !!! j > pivot)) as [Hgt|Hle].
      * rewrite decide_True by (split; [lia | exact Hgt]).
        destruct (jxs_new !! j) as [x|] eqn:Hj.
        -- rewrite list_lookup_insert_eq by (eapply lookup_lt_Some; eauto).
           rewrite (list_lookup_total_correct _ _ _ Hj). reflexivity.
        -- rewrite list_insert_ge by (apply lookup_ge_None; exact Hj).
           rewrite Hj. reflexivity.
      * rewrite decide_False by tauto. reflexivity.
    + assert (Hother : (if decide (jxs_old !!! i > pivot)
                        then <[i := jxs_new !!! i + size]> jxs_new
                        else jxs_new) !! j = jxs_new !! j).
      { destruct (decide (jxs_old !!! i > pivot));
          [apply list_lookup_insert_ne; exact Hij | reflexivity]. }
      rewrite Hother.
      destruct (decide ((S i <= j < S i + n)%nat /\ jxs_old !!! j > pivot))
        as [Hin|Hout].
      * rewrite decide_True by (split; [lia | tauto]). reflexivity.
      * rewrite decide_False; [reflexivity|].
        intros [Hrange Hgt]. apply Hout. split; [lia | exact Hgt].
Qed.

(** *** Properties of the block *)

(** C1. Parsing the words [dump] emits reconstructs the block.  For every
    block with an energy grid E of L entries and a list S of L
    cross-sections (L being an int), whatever was written before and whatever
    follows: the words [dump] appends are the length word L, the L energies
    and the L cross-sections, and the constructor, pointed by JXS at the
    place where they start, builds a block whose [energy] and [sigma_in] are
    E and S. *)
Theorem dump_parse_roundtrip (b : ITIEBlock) nxs jxs (pre post : list double) :
  length (sigma_in b) = length (energy b) ->
  Z.of_nat (length (energy b)) <= INT_MAX ->
  jxs !! ITIE = Some (Z.of_nat (length pre) + 1) ->
  dump b pre =
    pre ++ double_of_int (Z.of_nat (length (energy b)))
        :: energy b ++ sigma_in b /\
  ITIEBlock_ctor ITIE nxs jxs (dump b pre ++ post) = Some b.
Proof.
  intros Hlen HL Hjxs.
  rewrite (dump_words b pre HL).
  split; [reflexivity|].
  pose proof (ITIEBlock_ctor_words nxs jxs pre _ _ post Hjxs Hlen HL) as Hctor.
  destruct b as [e s]. simpl in *.
  rewrite <- app_assoc. simpl. rewrite <- app_assoc. exact Hctor.
Qed.

(** C3. For a block whose energy grid has L entries [getSize] returns
    2L + 1, and that is the number of words [dump] appends to the stream. *)
Theorem getSize_is_dump_length (b : ITIEBlock) (out : list double) :
  loaded ITIE b ->
  getSize b = 2 * Z.of_nat (length (energy b)) + 1 /\
  Z.of_nat (length (dump b out)) = Z.of_nat (length out) + getSize b.
Proof.
  intros Hb. destruct (loaded_inv b Hb) as [Hlen Hint].
  rewrite (getSize_exact b Hint). split; [reflexivity|].
  rewrite dump_words by lia.
  rewrite length_app. simpl. rewrite !length_app. lia.
Qed.

(** C4. [updatePointers] adds the size of the block, 2L + 1, to the entries
    of [jxs_new] whose entry in [jxs_old] is greater than the one of the ITIE
    slot, and leaves the other entries as they are. *)
Theorem updatePointers_shift (b : ITIEBlock) (nxs jxs_old jxs_new : list Z) :
  loaded ITIE b ->
  length jxs_old = jxs_size ->
  length jxs_new = jxs_size ->
  length (updatePointers ITIE b nxs jxs_old jxs_new) = jxs_size /\
  forall j : nat, (j < jxs_size)%nat ->
    updatePointers ITIE b nxs jxs_old jxs_new !!! j =
    if decide (jxs_old !!! j > jxs_old !!! ITIE)
    then jxs_new !!! j + (2 * Z.of_nat (length (energy b)) + 1)
    else jxs_new !!! j.
Proof.
  intros Hb Hold Hnew. destruct (loaded_inv b Hb) as [_ Hint].
  unfold updatePointers, shiftJXSArray. rewrite (getSize_exact b Hint).
  split.
  - rewrite shiftJXSArray_from_length. exact Hnew.
  - intros j Hj.
    destruct (lookup_lt_is_Some_2 jxs_new j) as [x Hx]; [lia|].
    apply list_lookup_total_correct.
    rewrite shiftJXSArray_from_lookup, Hx.
    rewrite (list_lookup_total_correct _ _ _ Hx).
    destruct (decide (jxs_old !!! j > jxs_old !!! ITIE)) as [Hgt|Hle].
    + rewrite decide_True by (split; [lia | exact Hgt]). reflexivity.
    + rewrite decide_False by tauto. reflexivity.
Qed.

End ITIE.

(** *** The example table *)

Lemma example_header : table_header example_nxs example_jxs example_xss.
Proof.
  unfold table_header. repeat split.
  - apply Forall_forall. intros x Hx. unfold int_range, INT_MIN, INT_MAX.
    apply elem_of_cons in Hx as [->|Hx]; [lia|].
    apply elem_of_replicate in Hx as [-> _]. lia.
  - apply Forall_forall. intros x Hx. unfold int_range, INT_MIN, INT_MAX.
    apply elem_of_cons in Hx as [->|Hx]; [lia|].
    apply elem_of_cons in Hx as [->|Hx]; [lia|].
    apply elem_of_replicate in Hx as [-> _]. lia.
Qed.

Lemma example_loaded : loaded 0 example_block.
Proof.
  exists example_nxs, example_jxs, example_xss. split; [apply example_header|].
  apply (ITIEBlock_ctor_words 0 example_nxs example_jxs
           [] [10; 20]%R [3; 4]%R [7; 7; 7; 7]%R).
  - reflexivity.
  - reflexivity.
  - unfold INT_MAX. simpl. lia.
Qed.

Lemma dump_parse_roundtrip_witness :
  ITIEBlock_ctor 0 example_nxs example_jxs
    (dump example_block [] ++ [7; 7; 7; 7]%R)
  = Some example_block.
Proof.
  apply (dump_parse_roundtrip 0 example_block example_nxs example_jxs
           [] [7; 7; 7; 7]%R).
  - reflexivity.
  - unfold INT_MAX. simpl. lia.
  - reflexivity.
Defined.

Lemma getSize_is_dump_length_witness :
  getSize example_block = 5 /\
  Z.of_nat (length (dump example_block [])) = 5.
Proof.
  destruct (getSize_is_dump_length 0 example_block [] example_loaded)
    as [Hsize Hdump].
  split; [exact Hsize|]. rewrite Hdump, Hsize. reflexivity.
Defined.

Lemma updatePointers_shift_witness :
  updatePointers 0 example_block example_nxs example_jxs example_jxs
    !!! 0%nat = 1 /\
  updatePointers 0 example_block example_nxs example_jxs example_jxs
    !!! 1%nat = 11.
Proof.
  destruct (updatePointers_shift 0 example_block example_nxs example_jxs
              example_jxs example_loaded eq_refl eq_refl) as [_ Hshift].
  split.
  - rewrite (Hshift 0%nat ltac:(unfold jxs_size; lia)). reflexivity.
  - rewrite (Hshift 1%nat ltac:(unfold jxs_size; lia)). reflexivity.
Defined.

(** *** Reading a block and dumping it again *)

Lemma setBegin_inv xss offset it :
  setBegin xss offset = Some it ->
  0 <= offset <= Z.of_nat (length xss) /\ it = drop (Z.to_nat offset) xss.
Proof.
  unfold setBegin. case_decide as Hoff; [|discriminate].
  intros [= <-]. split; [exact Hoff | reflexivity].
Qed.

Lemma getXSS_int_inv it n it' :
  getXSS_int it = Some (n, it') ->
  exists w, it = w :: it' /\ int_of_double w = Some n.
Proof.
  destruct it as [|w it0]; simpl; [discriminate|].
  destruct (int_of_double w) as [m|] eqn:Hw; simpl; [|discriminate].
  intros [= <- <-]. exists w. split; [reflexivity | exact Hw].
Qed.

Lemma getXSS_vector_inv size it v it' :
  getXSS_vector size it = Some (v, it') ->
  0 <= size <= Z.of_nat (length it) /\
  v = take (Z.to_nat size) it /\ it' = drop (Z.to_nat size) it.
Proof.
  unfold getXSS_vector. case_decide as Hsz; [|discriminate].
  intros [= <- <-]. split; [exact Hsz|]. split; reflexivity.
Qed.

Section Redump.

Variable ITIE : nat.

(** X1. A block that is read and dumped gives the words it was read from,
    but for the length word: the constructor, on a table whose XSS length
    is the int NXS[0], reads a length word w, L energies and L
    cross-sections at JXS[ITIE], where L is w truncated to an int and the
    number of entries of both vectors of the block; dumping
    the block after the words that precede it, and appending the words
    that follow it, gives XSS with the length word replaced by L. *)
Theorem read_then_dump (b : ITIEBlock) nxs jxs (xss : list double) :
  table_header nxs jxs xss ->
  ITIEBlock_ctor ITIE nxs jxs xss = Some b ->
  exists (ptr : Z) (w : double) (post : list double),
    let pre := take (Z.to_nat (ptr - 1)) xss in
    let L := Z.of_nat (length (energy b)) in
    jxs !! ITIE = Some ptr /\ 1 <= ptr /\
    xss = pre ++ w :: energy b ++ sigma_in b ++ post /\
    length (sigma_in b) = length (energy b) /\
    int_of_double w = Some L /\
    dump b pre ++ post = <[Z.to_nat (ptr - 1) := double_of_int L]> xss.
Proof.
  intros Hhdr Hctor.
  assert (Hb : loaded ITIE b) by (exists nxs, jxs, xss; split; assumption).
  destruct (loaded_inv ITIE b Hb) as [Hlen Hint].
  unfold ITIEBlock_ctor in Hctor.
  destruct (jxs !! ITIE) as [ptr|]; simpl in Hctor; [|discriminate].
  destruct (setBegin xss (ptr - 1)) as [it0|] eqn:Hbegin;
    simpl in Hctor; [|discriminate].
  destruct (getXSS_int it0) as [[n it1]|] eqn:Hword;
    simpl in Hctor; [|discriminate].
  destruct (getXSS_vector n it1) as [[e it2]|] eqn:He;
    simpl in Hctor; [|discriminate].
  destruct (getXSS_vector n it2) as [[s it3]|] eqn:Hs;
    simpl in Hctor; [|discriminate].
  injection Hctor as <-. simpl in *.
  apply setBegin_inv in Hbegin as [Hoff ->].
  apply getXSS_int_inv in Hword as (w & Hit0 & Hw).
  apply getXSS_vector_inv in He as (Hn & -> & ->).
  apply getXSS_vector_inv in Hs as (Hn2 & -> & ->).
  set (off := Z.to_nat (ptr - 1)) in *.
  set (it2 := drop (Z.to_nat n) it1) in *.
  assert (Hn_len : Z.of_nat (length (take (Z.to_nat n) it1)) = n)
    by (rewrite length_take; lia).
  assert (Hxss : xss = take off xss
                       ++ w :: take (Z.to_nat n) it1
                       ++ take (Z.to_nat n) it2 ++ drop (Z.to_nat n) it2).
  { rewrite (take_drop (Z.to_nat n) it2). unfold it2.
    rewrite (take_drop (Z.to_nat n) it1), <- Hit0.
    symmetry. apply take_drop. }
  exists ptr, w, (drop (Z.to_nat n) it2). simpl.
  split; [reflexivity|]. split; [lia|]. split; [exact Hxss|].
  split; [exact Hlen|].
  split; [rewrite Hn_len; exact Hw|].
  rewrite (dump_words _ (take off xss)) by (simpl; lia). simpl.
  etrans; [|apply (f_equal (insert _ _)); symmetry; exact Hxss].
  fold off.
  rewrite insert_app_r_alt by (rewrite length_take; lia).
  replace (off - length (take off xss))%nat with 0%nat
    by (rewrite length_take; lia).
  simpl. rewrite <- app_assoc. simpl. rewrite <- app_assoc. reflexivity.
Qed.

End Redump.

Lemma example_ctor :
  ITIEBlock_ctor 0 example_nxs example_jxs example_xss = Some example_block.
Proof.
  apply (ITIEBlock_ctor_words 0 example_nxs example_jxs
           [] [10; 20]%R [3; 4]%R [7; 7; 7; 7]%R).
  - reflexivity.
  - reflexivity.
  - unfold INT_MAX. simpl. lia.
Qed.

Lemma read_then_dump_witness :
  exists (ptr : Z) (post : list double),
    example_jxs !! 0%nat = Some ptr /\
    dump example_block (take (Z.to_nat (ptr - 1)) example_xss) ++ post
    = <[Z.to_nat (ptr - 1) := double_of_int 2]> example_xss.
Proof.
  destruct (read_then_dump 0 example_block example_nxs example_jxs
              example_xss example_header example_ctor)
    as (ptr & w & post & Hjxs & _ & _ & _ & _ & Hdump).
  exists ptr, post. split; [exact Hjxs | exact Hdump].
Defined.

End AceTheory.

(** ** The cylinder on an axis *)

Module GeometryTheory.
Import Geometry.
Local Open Scope R_scope.

(** *** Facts on vectors *)

Lemma sum_off_axis_unfold axis (f : Axis -> double) :
  sum_off_axis axis f =
  match axis with
  | xaxis => f yaxis + f zaxis
  | yaxis => f xaxis + f zaxis
  | zaxis => f xaxis + f yaxis
  end.
Proof. destruct axis; unfold sum_off_axis; simpl; ring. Qed.

Lemma dotProduct_sum axis (u v : Coordinate) :
  dotProduct axis u v = sum_off_axis axis (fun i => get u i * get v i).
Proof. rewrite sum_off_axis_unfold. destruct axis; reflexivity. Qed.

Lemma get_sub (u v : Coordinate) i : get (sub u v) i = get u i - get v i.
Proof. destruct i; reflexivity. Qed.

Lemma norm_one (v : Coordinate) :
  norm v = 1 ->
  coord_x v * coord_x v + coord_y v * coord_y v + coord_z v * coord_z v = 1.
Proof.
  unfold norm. intros Hn.
  set (q := coord_x v * coord_x v + coord_y v * coord_y v
            + coord_z v * coord_z v) in *.
  assert (Hq : 0 <= q) by (unfold q; nra).
  rewrite <- (sqrt_sqrt q Hq), Hn. ring.
Qed.

(** *** Properties of the surface *)

(** C5. [function(p)] is the sum over the two axes other than the axis of the
    cylinder of (p_i - c_i)^2, minus r^2; its sign tells on which side of the
    surface p lies. *)
Theorem function_formula axis (s : CylinderOnAxis axis) (p : Coordinate) :
  let d2 := sum_off_axis axis (fun i => (get p i - get (point s) i)²) in
  function s p = d2 - (radius s)² /\
  (function s p < 0 <-> d2 < (radius s)²) /\
  (function s p = 0 <-> d2 = (radius s)²) /\
  (function s p > 0 <-> d2 > (radius s)²).
Proof.
  intros d2.
  assert (Hf : function s p = d2 - (radius s)²).
  { unfold d2, function. rewrite dotProduct_sum, !sum_off_axis_unfold.
    unfold Rsqr. destruct axis; rewrite !get_sub; reflexivity. }
  rewrite Hf. repeat split; intros; lra.
Qed.

(** C2. The coefficients [intersect] passes to [quadraticIntersect] are
    a = 1 - d_axis^2, k = sum over the other axes of d_i (p_i - c_i) and
    c = f(p); for a unit direction d they satisfy
    f(p + t d) = a t^2 + 2 k t + c for every t, so the roots of the quadratic
    are the distances at which the ray meets the surface. *)
Theorem intersect_reduction axis
  (quadraticIntersect : double -> double -> double -> bool -> double -> bool * double)
  (s : CylinderOnAxis axis) (p : Coordinate) (d : Direction)
  (sense : bool) (distance : double) :
  norm d = 1 ->
  let a := 1 - (get d axis)² in
  let k := sum_off_axis axis (fun i => get d i * (get p i - get (point s) i)) in
  let c := function s p in
  intersect quadraticIntersect s p d sense distance
    = quadraticIntersect a k c sense distance /\
  forall t : double,
    function s (ray p d t) = a * t² + 2 * k * t + c /\
    (function s (ray p d t) = 0 <-> a * t² + 2 * k * t + c = 0).
Proof.
  intros Hd a k c. apply norm_one in Hd.
  assert (Hint : intersect quadraticIntersect s p d sense distance
                 = quadraticIntersect a k c sense distance).
  { unfold intersect, a, k, c, function.
    rewrite dotProduct_sum, !sum_off_axis_unfold. unfold Rsqr.
    destruct axis; rewrite !get_sub; reflexivity. }
  split; [exact Hint|].
  assert (Hred : forall t, function s (ray p d t) = a * t² + 2 * k * t + c).
  { intros t. unfold a, k, c, function.
    rewrite sum_off_axis_unfold. unfold Rsqr.
    destruct s as [sf r [cx cy cz]], p as [px py pz], d as [dx dy dz].
    simpl in Hd.
    destruct axis; simpl; nra. }
  intros t. rewrite Hred. split; [reflexivity | tauto].
Qed.

(** C6. [transformate(t)] builds a cylinder with the same user id, flags and
    radius whose axis point is the old one plus t; the function of the new
    surface at p is the function of the old one at p - t. *)
Theorem transformate_translation axis (s : CylinderOnAxis axis) (t : Direction) :
  getUserId (surface (transformate s t)) = getUserId (surface s) /\
  getFlags (surface (transformate s t)) = getFlags (surface s) /\
  radius (transformate s t) = radius s /\
  point (transformate s t) = add (point s) t /\
  forall p : Coordinate,
    function (transformate s t) p = function s (sub p t).
Proof.
  repeat split.
  intros p. unfold function, transformate. simpl.
  destruct s as [sf r [cx cy cz]], p as [px py pz], t as [tx ty tz].
  destruct axis; simpl; ring.
Qed.

(** C9. On a cylinder of radius r > 0, at a point p of the surface
    (function(p) = 0), [normal] returns p minus the axis point, with the
    component on the axis set to zero, divided by r, and this vector has
    length one. *)
Theorem normal_unit axis (s : CylinderOnAxis axis) (p : Coordinate) :
  0 < radius s ->
  function s p = 0 ->
  normal s p = div (set (sub p (point s)) axis 0) (radius s) /\
  get (normal s p) axis = 0 /\
  norm (normal s p) = 1.
Proof.
  intros Hr Hf. split; [reflexivity|].
  unfold function in Hf. unfold norm, normal.
  destruct s as [sf r [cx cy cz]], p as [px py pz]. simpl in *.
  assert (Hr0 : r <> 0) by lra.
  split.
  - destruct axis; simpl; unfold Rdiv; ring.
  - rewrite <- sqrt_1. f_equal.
    destruct axis; simpl in *; field_simplify; try exact Hr0;
      apply Rmult_eq_reg_r with (r := r ^ 2);
      try (apply pow_nonzero; exact Hr0);
      field_simplify; try exact Hr0; nra.
Qed.

(** C7, as the code has it. The constructor fails with [BadSurfaceCreation]
    exactly when the number of coefficients is not 3; the radius is not
    looked at.  With three coefficients it succeeds: the first is the radius,
    the other two, in order, are the components of the axis point off the
    axis, and the component on the axis is zero. *)
Theorem CylinderOnAxis_ctor_coeffs axis (surid : SurfaceId)
  (coeffs : list double) (flags : SurfaceInfo) :
  CylinderOnAxis_ctor axis surid coeffs flags =
  match coeffs with
  | [r; u; v] =>
    inr (mkCylinderOnAxis axis (mkSurface surid flags) r
           match axis with
           | xaxis => mkCoordinate 0 u v
           | yaxis => mkCoordinate u 0 v
           | zaxis => mkCoordinate u v 0
           end)
  | _ => inl (BadSurfaceCreation surid "Bad number of coefficients")
  end.
Proof.
  unfold CylinderOnAxis_ctor.
  destruct coeffs as [|r [|u [|v [|w rest]]]]; try reflexivity.
  destruct axis; reflexivity.
Qed.

(** *** The properties at concrete surfaces *)

Lemma intersect_reduction_witness :
  function unit_cylinder_z
    (ray (mkCoordinate 2 0 0) (mkCoordinate (-1) 0 0) 1) = 0.
Proof.
  assert (Hd : norm (mkCoordinate (-1) 0 0) = 1).
  { unfold norm. simpl.
    replace (-1 * -1 + 0 * 0 + 0 * 0) with 1 by ring. apply sqrt_1. }
  destruct (intersect_reduction zaxis no_intersect unit_cylinder_z
              (mkCoordinate 2 0 0) (mkCoordinate (-1) 0 0) true 0 Hd)
    as [_ Hred].
  destruct (Hred 1) as [Heq _]. rewrite Heq.
  rewrite sum_off_axis_unfold. unfold function, Rsqr. simpl. ring.
Defined.

Lemma normal_unit_witness :
  norm (normal cylinder_z_2 (mkCoordinate 3 1 5)) = 1.
Proof.
  apply (normal_unit zaxis cylinder_z_2 (mkCoordinate 3 1 5)).
  - simpl. lra.
  - unfold function. simpl. ring.
Defined.

(** C7, as the spec states it, fails: three coefficients with a zero radius
    do not raise [BadSurfaceCreation], they build a surface of radius 0. *)
Lemma CylinderOnAxis_ctor_zero_radius :
  CylinderOnAxis_ctor zaxis "3" [0; 1; 2] (mkSurfaceInfo false false)
  = inr (mkCylinderOnAxis zaxis (mkSurface "3" (mkSurfaceInfo false false)) 0
           (mkCoordinate 1 2 0)) /\
  ~ (exists reason,
       CylinderOnAxis_ctor zaxis "3" [0; 1; 2] (mkSurfaceInfo false false)
       = inl (BadSurfaceCreation "3" reason)).
Proof.
  split; [reflexivity|]. intros [reason Hfail]. discriminate Hfail.
Qed.

(** *** Further properties of the surface *)

Lemma norm_sqr (v : Coordinate) :
  norm v * norm v =
  coord_x v * coord_x v + coord_y v * coord_y v + coord_z v * coord_z v.
Proof. unfold norm. apply sqrt_sqrt. nra. Qed.

Lemma norm_nonneg (v : Coordinate) : 0 <= norm v.
Proof. unfold norm. apply sqrt_pos. Qed.

(** X2. The constructor function a cylinder hands out builds, from three
    coefficients, a cylinder on the same axis, with the same name, the given
    id and flags and the first coefficient as radius; from any other number
    of coefficients it fails with [BadSurfaceCreation].  The names of the
    three axes are distinct. *)
Theorem constructor_same_kind axis (s : CylinderOnAxis axis)
  (surid : SurfaceId) (coeffs : list double) (flags : SurfaceInfo) :
  match constructor s surid coeffs flags with
  | inr s' =>
    length coeffs = 3%nat /\
    projT1 s' = axis /\ name_of s' = name s /\
    getUserId (surface (projT2 s')) = surid /\
    getFlags (surface (projT2 s')) = flags /\
    radius (projT2 s') = coeffs !!! 0%nat
  | inl e =>
    length coeffs <> 3%nat /\
    e = BadSurfaceCreation surid "Bad number of coefficients"
  end /\
  (forall axis' (s' : CylinderOnAxis axis'), name s = name s' <-> axis = axis').
Proof.
  split.
  - destruct coeffs as [|r [|u [|v [|w rest]]]];
      destruct axis; simpl; repeat split; discriminate.
  - intros axis' s'. destruct axis, axis'; simpl;
      split; intros H; try reflexivity; discriminate H.
Qed.

(** X3. A cylinder does not see the coordinate along its axis: replacing the
    component of the position on the axis by any value changes neither
    [function], nor [normal], nor the call [intersect] makes. *)
Theorem along_axis_invariant axis
  (quadraticIntersect : double -> double -> double -> bool -> double -> bool * double)
  (s : CylinderOnAxis axis) (p : Coordinate) (a : double)
  (d : Direction) (sense : bool) (distance : double) :
  function s (set p axis a) = function s p /\
  normal s (set p axis a) = normal s p /\
  intersect quadraticIntersect s (set p axis a) d sense distance
  = intersect quadraticIntersect s p d sense distance.
Proof.
  destruct s as [sf r [cx cy cz]], p as [px py pz].
  destruct axis; repeat split.
Qed.

(** X4. Translations compose: translating by t1 and then by t2 is
    translating by t1 + t2, translating by the null vector gives the surface
    back, and translating by t and then by -t gives it back. *)
Theorem transformate_compose axis (s : CylinderOnAxis axis) (t1 t2 : Direction) :
  transformate (transformate s t1) t2 = transformate s (add t1 t2) /\
  transformate s null_vector = s /\
  transformate (transformate s t1) (sub null_vector t1) = s.
Proof.
  destruct s as [[id fl] r [cx cy cz]], t1 as [x1 y1 z1], t2 as [x2 y2 z2].
  unfold transformate, CylinderOnAxis_new, add, sub, null_vector. simpl.
  repeat split; f_equal; f_equal; ring.
Qed.

(** X5. The vector [normal] returns has length one exactly at the points of
    the surface: for a radius other than zero the square of its length is
    1 + function(p) / r^2. *)
Theorem normal_length axis (s : CylinderOnAxis axis) (p : Coordinate) :
  radius s <> 0 ->
  norm (normal s p) * norm (normal s p)
    = 1 + function s p / (radius s * radius s) /\
  (norm (normal s p) = 1 <-> function s p = 0).
Proof.
  intros Hr.
  assert (Hsq : norm (normal s p) * norm (normal s p)
                = 1 + function s p / (radius s * radius s)).
  { rewrite norm_sqr. unfold normal, function.
    destruct s as [sf r [cx cy cz]], p as [px py pz]. simpl in *.
    destruct axis; simpl; field; exact Hr. }
  split; [exact Hsq|].
  pose proof (norm_nonneg (normal s p)) as Hpos.
  assert (Hrr : 0 < radius s * radius s) by nra.
  split.
  - intros H1. rewrite H1 in Hsq.
    assert (Hq : function s p / (radius s * radius s) = 0) by lra.
    apply (Rmult_eq_compat_r (radius s * radius s)) in Hq.
    unfold Rdiv in Hq. rewrite Rmult_assoc, Rinv_l in Hq by lra. lra.
  - intros H0. rewrite H0 in Hsq. unfold Rdiv in Hsq.
    rewrite Rmult_0_l in Hsq. nra.
Qed.

(** X6. The sign of the radius is not seen by [function] and turns [normal]
    round: a cylinder built with radius -r has the same function as the one
    built with r, and the opposite normal at every point. *)
Theorem radius_sign axis (s : CylinderOnAxis axis) (p : Coordinate) :
  radius s <> 0 ->
  let s' := mkCylinderOnAxis axis (surface s) (- radius s) (point s) in
  function s' p = function s p /\
  forall i, get (normal s' p) i = - get (normal s p) i.
Proof.
  intros Hr s'. unfold s', function, normal.
  destruct s as [sf r [cx cy cz]], p as [px py pz]. simpl in *.
  split.
  - destruct axis; simpl; ring.
  - intros i. destruct axis, i; simpl; field; exact Hr.
Qed.

(** X7. For a unit direction the leading coefficient [intersect] passes to
    [quadraticIntersect] lies between 0 and 1; it is 0 exactly when the
    direction is along the axis, and then the linear coefficient is 0 too:
    a ray parallel to the axis is handed a degenerate equation. *)
Theorem intersect_axis_coefficient axis (s : CylinderOnAxis axis)
  (p : Coordinate) (d : Direction) :
  norm d = 1 ->
  exists a k c : double,
    (forall quadraticIntersect sense distance,
       intersect quadraticIntersect s p d sense distance
       = quadraticIntersect a k c sense distance) /\
    0 <= a <= 1 /\
    (a = 0 <-> get d axis = 1 \/ get d axis = -1) /\
    (a = 0 -> k = 0).
Proof.
  intros Hd. apply norm_one in Hd.
  exists (1 - get d axis * get d axis),
         (dotProduct axis d (sub p (point s))),
         (function s p).
  split; [reflexivity|].
  destruct s as [sf r [cx cy cz]], p as [px py pz], d as [dx dy dz].
  simpl in Hd.
  destruct axis; simpl; (split; [nra|]); split.
  1,3,5: split; [intros Ha | intros [-> | ->]; ring].
  1,2,3: match goal with
         | |- ?x = 1 \/ _ =>
           assert (Hx : (x - 1) * (x + 1) = 0) by nra;
           apply Rmult_integral in Hx; destruct Hx; [left | right]; lra
         end.
  all: intros Ha.
  - assert (dy = 0) by nra. assert (dz = 0) by nra. subst. ring.
  - assert (dx = 0) by nra. assert (dz = 0) by nra. subst. ring.
  - assert (dx = 0) by nra. assert (dy = 0) by nra. subst. ring.
Qed.

(** *** The further properties at concrete surfaces *)

Lemma normal_length_witness :
  norm (normal cylinder_z_2 (mkCoordinate 3 1 5)) = 1.
Proof.
  apply (proj2 (normal_length zaxis cylinder_z_2 (mkCoordinate 3 1 5)
                  ltac:(simpl; lra))).
  unfold function. simpl. ring.
Defined.

Lemma radius_sign_witness :
  function (mkCylinderOnAxis xaxis (surface cylinder_x_2) (- 2)
              (point cylinder_x_2)) (mkCoordinate 0 3 1)
  = function cylinder_x_2 (mkCoordinate 0 3 1).
Proof.
  apply (radius_sign xaxis cylinder_x_2 (mkCoordinate 0 3 1)
           ltac:(simpl; lra)).
Defined.

Lemma intersect_axis_coefficient_witness :
  exists a k c : double,
    (forall quadraticIntersect sense distance,
       intersect quadraticIntersect unit_cylinder_z (mkCoordinate 2 0 0)
         (unit_vector zaxis) sense distance
       = quadraticIntersect a k c sense distance) /\
    a = 0 /\ k = 0.
Proof.
  assert (Hd : norm (unit_vector zaxis) = 1).
  { unfold norm, unit_vector. simpl.
    replace (0 * 0 + 0 * 0 + 1 * 1) with 1 by ring. apply sqrt_1. }
  destruct (intersect_axis_coefficient zaxis unit_cylinder_z
              (mkCoordinate 2 0 0) (unit_vector zaxis) Hd)
    as (a & k & c & Hcall & _ & Ha & Hk).
  assert (Ha0 : a = 0) by (apply Ha; left; reflexivity).
  exists a, k, c. split; [exact Hcall|]. split; [exact Ha0 | exact (Hk Ha0)].
Defined.

End GeometryTheory.

(** ** The module environment *)

Module EnvironmentTheory.
Import Environment.

Section McEnvironment.

Context {McModule : Type}.

(** *** Facts on the loop of [createModule] and on staging *)

Lemma collect_definitions_filter this module user_definitions :
  forall (objs : gmap ObjectPtr McObject) (definitions : list ObjectPtr),
  Forall (fun p => is_Some (objs !! p)) user_definitions ->
  exists objs',
    collect_definitions this module user_definitions objs definitions
    = Some (definitions ++ filter (of_module module objs) user_definitions,
            objs') /\
    forall p, getModuleName <$> objs' !! p = getModuleName <$> objs !! p.
Proof.
  induction user_definitions as [|it_obj rest IH];
    intros objs definitions Hvalid; simpl.
  - exists objs. rewrite app_nil_r. split; reflexivity.
  - apply Forall_cons in Hvalid as [[obj Hobj] Hrest].
    rewrite Hobj. rewrite filter_cons.
    destruct (decide (getModuleName obj = module)) as [Hname|Hname].
    + set (objs1 := <[it_obj := setEnvironment obj this]> objs).
      assert (Hnames : forall p,
                 getModuleName <$> objs1 !! p = getModuleName <$> objs !! p).
      { intros p. unfold objs1. destruct (decide (it_obj = p)) as [->|Hp].
        - rewrite lookup_insert_eq, Hobj. reflexivity.
        - rewrite lookup_insert_ne by exact Hp. reflexivity. }
      destruct (IH objs1 (definitions ++ [it_obj])) as (objs' & Hc & Hn).
      { eapply Forall_impl; [exact Hrest|]. intros p [o Ho]. simpl.
        apply fmap_is_Some with (f := getModuleName).
        rewrite Hnames, Ho. eexists; reflexivity. }
      exists objs'. split.
      * rewrite Hc. rewrite decide_True by (unfold of_module; rewrite Hobj; simpl; congruence).
        rewrite <- app_assoc. simpl. do 4 f_equal.
        apply list_filter_iff. intros p. unfold of_module. rewrite Hnames.
        reflexivity.
      * intros p. rewrite Hn. apply Hnames.
    + destruct (IH objs definitions Hrest) as (objs' & Hc & Hn).
      exists objs'. split; [|exact Hn].
      rewrite Hc. rewrite decide_False; [reflexivity|].
      unfold of_module. rewrite Hobj. simpl. congruence.
Qed.

(** Staging an object gives its module a vector that is not empty: a name
    with no object staged is a name with no entry in the object map. *)
Lemma pushObject_stages this object (w : World McModule) obj :
  objects w !! object = Some obj ->
  exists w',
    pushObject this object w = (Return tt, w') /\
    object_map (environment w') !! getModuleName obj =
      Some (default [] (object_map (environment w) !! getModuleName obj)
            ++ [object]) /\
    objects w' !! object = Some (setEnvironment obj this).
Proof.
  intros Hobj. unfold pushObject. rewrite Hobj.
  eexists. split; [reflexivity|]. simpl.
  split; apply lookup_insert_eq.
Qed.

(** *** Properties of the environment *)

(** C8. Setting up a module fails, with the error that says that no factory
    is registered (the MissingFactory of the spec), when the factory map has
    no entry under the name; with a factory but no objects staged under the
    name it returns and changes nothing; with both, the factory is called on
    the staged objects and the module it creates is stored in the module map
    under the name, the other entries and the other maps being kept; an
    exception of the factory leaves the environment as it was. *)
Theorem setupModule_cases (module : string) (w : World McModule) :
  (factory_map (environment w) !! module = None ->
   setupModule module w =
   (Throw (GeneralError
      ("Cannot create module *" +:+ module +:+ "* (no factory is registered) ")),
    w)) /\
  (forall factory,
   factory_map (environment w) !! module = Some factory ->
   object_map (environment w) !! module = None ->
   setupModule module w = (Return tt, w)) /\
  (forall factory definitions mod_,
   factory_map (environment w) !! module = Some factory ->
   object_map (environment w) !! module = Some definitions ->
   create factory (objects w) (module_map (environment w)) definitions
     = inr mod_ ->
   exists w',
     setupModule module w = (Return tt, w') /\
     module_map (environment w') !! module = Some mod_ /\
     (forall other, other <> module ->
        module_map (environment w') !! other
        = module_map (environment w) !! other) /\
     factory_map (environment w') = factory_map (environment w) /\
     object_map (environment w') = object_map (environment w) /\
     objects w' = objects w) /\
  (forall factory definitions e,
   factory_map (environment w) !! module = Some factory ->
   object_map (environment w) !! module = Some definitions ->
   create factory (objects w) (module_map (environment w)) definitions
     = inl e ->
   setupModule module w = (Throw e, w)).
Proof.
  unfold setupModule. repeat split.
  - intros ->. reflexivity.
  - intros factory -> ->. reflexivity.
  - intros factory definitions mod_ -> -> ->.
    eexists. split; [reflexivity|]. simpl. repeat split.
    + apply lookup_insert_eq.
    + intros other Hother. apply lookup_insert_ne. congruence.
  - intros factory definitions e -> -> ->. reflexivity.
Qed.

(** C10. [createModule] leaves the factory map, the module map and the
    object map of the environment as they were, whatever the definitions
    are and whether it returns or throws; it throws when no factory is
    registered and when no definition belongs to the module; the module it
    creates is returned and not loaded. *)
Theorem createModule_frame (Module : Type) (name : string)
  (dynamic_cast : McModule -> option Module) (this : EnvironmentPtr)
  (user_definitions : list ObjectPtr) (w : World McModule) :
  let r := createModule name dynamic_cast this user_definitions w in
  factory_map (environment r.2) = factory_map (environment w) /\
  module_map (environment r.2) = module_map (environment w) /\
  object_map (environment r.2) = object_map (environment w) /\
  isModuleSet name r.2 = isModuleSet name w /\
  (factory_map (environment w) !! name = None ->
   r.1 = Throw (GeneralError
     ("Cannot create module *" +:+ name +:+ "* (no factory is registered) "))) /\
  (forall factory,
   factory_map (environment w) !! name = Some factory ->
   Forall (fun p => is_Some (objects w !! p)) user_definitions ->
   Forall (fun p => ~ of_module name (objects w) p) user_definitions ->
   r.1 = Throw (GeneralError
     ("Cannot create module *" +:+ name +:+ "*. " +:+
      "The objects supplied by the user does not contain information about that module"))) /\
  (forall factory definitions objs mod_,
   factory_map (environment w) !! name = Some factory ->
   collect_definitions this name user_definitions (objects w) []
     = Some (definitions, objs) ->
   definitions <> [] ->
   create factory objs (module_map (environment w)) definitions = inr mod_ ->
   r = (Return (dynamic_cast mod_), mkWorld objs (environment w))).
Proof.
  intros r.
  assert (Henv : environment r.2 = environment w).
  { unfold r, createModule.
    destruct (factory_map (environment w) !! name) as [factory|];
      [|reflexivity].
    destruct (collect_definitions this name user_definitions (objects w) [])
      as [[definitions objs]|]; [|reflexivity].
    destruct (decide (length definitions = 0%nat)); [reflexivity|].
    destruct (create factory objs (module_map (environment w)) definitions);
      reflexivity. }
  unfold isModuleSet. rewrite Henv. repeat split.
  - intros Hnone. unfold r, createModule. rewrite Hnone. reflexivity.
  - intros factory Hfactory Hvalid Hnone. unfold r, createModule.
    rewrite Hfactory.
    destruct (collect_definitions_filter this name user_definitions
                (objects w) [] Hvalid) as (objs' & -> & _).
    assert (Hfilter : filter (of_module name (objects w)) user_definitions = []).
    { clear -Hnone. induction Hnone as [|p rest Hp _ IH]; [reflexivity|].
      rewrite filter_cons, decide_False by exact Hp. exact IH. }
    rewrite Hfilter. reflexivity.
  - intros factory definitions objs mod_ Hfactory Hcollect Hdefs Hcreate.
    unfold r, createModule. rewrite Hfactory, Hcollect.
    rewrite decide_False by (destruct definitions; [congruence | discriminate]).
    rewrite Hcreate. reflexivity.
Qed.


End McEnvironment.

(** *** A run of the environment *)

Example setup_without_factory :
  (setupModule "geometry" world0).1 =
  Throw (GeneralError
    "Cannot create module *geometry* (no factory is registered) ").
Proof. reflexivity. Qed.

Example setup_without_objects :
  setupModule "geometry" (registerFactory geometry_factory world0) =
  (Return tt, registerFactory geometry_factory world0).
Proof. reflexivity. Qed.

Example setup_stores_module :
  module_map (environment (setupModule "geometry" world1).2) !! "geometry"
  = Some [1%nat].
Proof. vm_compute. reflexivity. Qed.

Example create_returns_module :
  (createModule "geometry" Some 0%nat [1%nat; 2%nat] world1).1
  = Return (Some [1%nat]) /\
  module_map (environment
    (createModule "geometry" Some 0%nat [1%nat; 2%nat] world1).2) = ∅.
Proof. split; vm_compute; reflexivity. Qed.

Example create_without_matching_definition :
  (createModule "geometry" Some 0%nat [2%nat] world1).1 =
  Throw (GeneralError
    "Cannot create module *geometry*. The objects supplied by the user does not contain information about that module").
Proof. vm_compute. reflexivity. Qed.


(** *** Further properties of the environment *)

Section McEnvironmentMembers.

Context {McModule : Type}.

Lemma setEnvironment_idem obj this :
  setEnvironment (setEnvironment obj this) this = setEnvironment obj this.
Proof. reflexivity. Qed.

Lemma setEnvironment_same obj this :
  getEnvironment obj = Some this -> setEnvironment obj this = obj.
Proof. destruct obj as [m u e]. simpl. intros ->. reflexivity. Qed.

Lemma of_module_insert module (objs : gmap ObjectPtr McObject) p obj this q :
  objs !! p = Some obj ->
  of_module module (<[p := setEnvironment obj this]> objs) q
  <-> of_module module objs q.
Proof.
  intros Hobj. unfold of_module. destruct (decide (p = q)) as [->|Hpq].
  - rewrite lookup_insert_eq, Hobj. reflexivity.
  - rewrite lookup_insert_ne by exact Hpq. reflexivity.
Qed.

(** X8. A registered factory is the one found under its name: registering
    keeps the factories of the other names, the loaded modules, the staged
    objects and the objects; a second registration under the same name
    replaces the first; and setting up the module of a registered factory
    with nothing staged returns without an error. *)
Theorem registerFactory_lookup (factory : ModuleFactory McModule)
  (w : World McModule) :
  let w' := registerFactory factory w in
  factory_map (environment w') !! getName factory = Some factory /\
  (forall other, other <> getName factory ->
     factory_map (environment w') !! other
     = factory_map (environment w) !! other) /\
  module_map (environment w') = module_map (environment w) /\
  object_map (environment w') = object_map (environment w) /\
  objects w' = objects w /\
  (forall factory', getName factory' = getName factory ->
     registerFactory factory' w' = registerFactory factory' w) /\
  (object_map (environment w) !! getName factory = None ->
     setupModule (getName factory) w' = (Return tt, w')).
Proof.
  intros w'. unfold w', registerFactory. simpl. repeat split.
  - apply lookup_insert_eq.
  - intros other Hother. apply lookup_insert_ne. congruence.
  - intros factory' Hname. simpl. rewrite Hname, insert_insert_eq.
    reflexivity.
  - intros Hnone. unfold setupModule. simpl.
    rewrite lookup_insert_eq, Hnone. reflexivity.
Qed.

(** X9. [pushObjects] stages the objects in the order of the range: when
    every pointer of the range points to an object it returns; the vector
    of each module is the one it had followed by the objects of the range
    that belong to the module, in order and with repetitions; a module none
    of them belongs to gets no entry; every object of the range refers back
    to this environment and nothing else is written. *)
Theorem pushObjects_staged this (range : list ObjectPtr) (w : World McModule) :
  Forall (fun p => is_Some (objects w !! p)) range ->
  exists w',
    pushObjects this range w = (Return tt, w') /\
    factory_map (environment w') = factory_map (environment w) /\
    module_map (environment w') = module_map (environment w) /\
    (forall module,
       object_map (environment w') !! module =
       if decide (filter (of_module module (objects w)) range = [])
       then object_map (environment w) !! module
       else Some (default [] (object_map (environment w) !! module)
                  ++ filter (of_module module (objects w)) range)) /\
    (forall p,
       objects w' !! p =
       if decide (p ∈ range)
       then (fun obj => setEnvironment obj this) <$> objects w !! p
       else objects w !! p).
Proof.
  revert w. induction range as [|object rest IH]; intros w Hvalid.
  - exists w. simpl. repeat split.
  - apply Forall_cons in Hvalid as [[obj Hobj] Hrest].
    simpl. unfold pushObject. rewrite Hobj.
    set (w1 := mkWorld _ _).
    assert (Hvalid1 : Forall (fun p => is_Some (objects w1 !! p)) rest).
    { eapply Forall_impl; [exact Hrest|]. intros p [o Ho]. simpl.
      destruct (decide (object = p)) as [->|Hp].
      - rewrite lookup_insert_eq. eexists; reflexivity.
      - rewrite lookup_insert_ne by exact Hp. eexists; exact Ho. }
    destruct (IH w1 Hvalid1) as (w' & Hpush & Hf & Hm & Ho & Hs).
    assert (Hfilter : forall module,
               filter (of_module module (objects w1)) rest
               = filter (of_module module (objects w)) rest).
    { intros module. apply list_filter_iff. intros q. simpl.
      apply of_module_insert. exact Hobj. }
    exists w'. split; [exact Hpush|]. split; [exact Hf|]. split; [exact Hm|].
    split.
    + intros module. rewrite Ho, Hfilter, filter_cons. simpl.
      destruct (decide (getModuleName obj = module)) as [Hname|Hname].
      * rewrite (decide_True (P := of_module module (objects w) object))
          by (unfold of_module; rewrite Hobj; simpl; congruence).
        rewrite (decide_False (P := _ :: _ = [])) by discriminate.
        subst module. rewrite lookup_insert_eq. simpl.
        destruct (decide (filter (of_module (getModuleName obj) (objects w))
                            rest = [])) as [->|_].
        -- reflexivity.
        -- rewrite <- app_assoc. reflexivity.
      * rewrite (decide_False (P := of_module module (objects w) object))
          by (unfold of_module; rewrite Hobj; simpl; congruence).
        rewrite lookup_insert_ne by exact Hname. reflexivity.
    + intros p. rewrite Hs. simpl.
      destruct (decide (object = p)) as [<-|Hp].
      * rewrite lookup_insert_eq, Hobj.
        rewrite (decide_True (P := object ∈ object :: rest))
          by (apply elem_of_cons; left; reflexivity).
        destruct (decide (object ∈ rest)); reflexivity.
      * rewrite lookup_insert_ne by exact Hp.
        destruct (decide (p ∈ rest)) as [Hin|Hnin].
        -- rewrite decide_True by (apply elem_of_cons; right; exact Hin).
           reflexivity.
        -- rewrite decide_False; [reflexivity|].
           intros Hin. apply elem_of_cons in Hin as [->|Hin];
             [apply Hp; reflexivity | apply Hnin; exact Hin].
Qed.

(** *** The invariant of staging *)

Lemma staged_entry_insert this (objs : gmap ObjectPtr McObject) p obj module q :
  objs !! p = Some obj ->
  (exists o, objs !! q = Some o /\ getModuleName o = module /\
             getEnvironment o = Some this) ->
  exists o, <[p := setEnvironment obj this]> objs !! q = Some o /\
            getModuleName o = module /\ getEnvironment o = Some this.
Proof.
  intros Hobj (o & Hq & Hname & Henv).
  destruct (decide (p = q)) as [->|Hpq].
  - rewrite lookup_insert_eq. exists (setEnvironment obj this).
    rewrite Hobj in Hq. injection Hq as ->. repeat split. exact Hname.
  - rewrite lookup_insert_ne by exact Hpq. exists o. repeat split; assumption.
Qed.

Lemma staged_here_empty this (objs : gmap ObjectPtr McObject) :
  staged_here this (empty_world McModule objs).
Proof. intros module definitions H. simpl in H. discriminate H. Qed.

Lemma registerFactory_staged_here this factory (w : World McModule) :
  staged_here this w -> staged_here this (registerFactory factory w).
Proof. intros H module definitions Hd. exact (H module definitions Hd). Qed.

Lemma pushObject_staged_here this object (w : World McModule) :
  staged_here this w -> staged_here this (pushObject this object w).2.
Proof.
  intros H. unfold pushObject.
  destruct (objects w !! object) as [obj|] eqn:Hobj; simpl; [|exact H].
  intros module definitions Hd. simpl in Hd.
  destruct (decide (getModuleName obj = module)) as [<-|Hname].
  - rewrite lookup_insert_eq in Hd. injection Hd as <-. split.
    + intros Hnil. apply app_nil in Hnil as [_ Hnil]. discriminate Hnil.
    + apply Forall_app. split.
      * destruct (object_map (environment w) !! getModuleName obj)
          as [staged|] eqn:Hstaged; simpl; [|constructor].
        destruct (H _ _ Hstaged) as [_ Hall].
        eapply Forall_impl; [exact Hall|]. intros q Hq. simpl.
        apply staged_entry_insert; assumption.
      * constructor; [|constructor]. simpl.
        exists (setEnvironment obj this). rewrite lookup_insert_eq.
        repeat split.
  - rewrite lookup_insert_ne in Hd by exact Hname.
    destruct (H _ _ Hd) as [Hne Hall]. split; [exact Hne|].
    eapply Forall_impl; [exact Hall|]. intros q Hq. simpl.
    apply staged_entry_insert; assumption.
Qed.

Lemma pushObjects_staged_here this range :
  forall w : World McModule,
  staged_here this w -> staged_here this (pushObjects this range w).2.
Proof.
  induction range as [|object rest IH]; intros w H; simpl; [exact H|].
  pose proof (pushObject_staged_here this object w H) as H1.
  destruct (pushObject this object w) as [[u|e|] w1]; simpl in *;
    [apply IH; exact H1 | exact H1 | exact H1].
Qed.

Lemma setupModule_staged_here this module (w : World McModule) :
  staged_here this w -> staged_here this (setupModule module w).2.
Proof.
  intros H. unfold setupModule.
  destruct (factory_map (environment w) !! module) as [factory|];
    [|exact H].
  destruct (object_map (environment w) !! module) as [definitions|];
    [|exact H].
  destruct (create factory (objects w) (module_map (environment w))
              definitions) as [e|mod_]; [exact H|].
  intros name d Hd. exact (H name d Hd).
Qed.

Lemma collect_definitions_objects this module user_definitions :
  forall (objs : gmap ObjectPtr McObject) acc definitions objs',
  collect_definitions this module user_definitions objs acc
  = Some (definitions, objs') ->
  forall q o, objs !! q = Some o ->
    objs' !! q = Some o \/ objs' !! q = Some (setEnvironment o this).
Proof.
  induction user_definitions as [|it_obj rest IH];
    intros objs acc definitions objs' Hc q o Hq; simpl in Hc.
  - injection Hc as _ <-. left. exact Hq.
  - destruct (objs !! it_obj) as [obj|] eqn:Hobj; [|discriminate].
    destruct (decide (getModuleName obj = module)) as [Hname|Hname].
    + destruct (decide (it_obj = q)) as [->|Hne].
      * rewrite Hobj in Hq. injection Hq as ->. right.
        destruct (IH _ _ _ _ Hc q (setEnvironment o this)) as [H|H];
          [apply lookup_insert_eq | exact H | exact H].
      * apply (IH _ _ _ _ Hc q o).
        rewrite lookup_insert_ne by exact Hne. exact Hq.
    + apply (IH _ _ _ _ Hc q o Hq).
Qed.

Lemma createModule_staged_here (Module : Type) (name : string)
  (dynamic_cast : McModule -> option Module) this user_definitions
  (w : World McModule) :
  staged_here this w ->
  staged_here this (createModule name dynamic_cast this user_definitions w).2.
Proof.
  intros H. unfold createModule.
  destruct (factory_map (environment w) !! name) as [factory|]; [|exact H].
  destruct (collect_definitions this name user_definitions (objects w) [])
    as [[definitions objs]|] eqn:Hc; [|exact H].
  assert (Hw : staged_here this (mkWorld objs (environment w))).
  { intros module d Hd. simpl in Hd. destruct (H module d Hd) as [Hne Hall].
    split; [exact Hne|]. eapply Forall_impl; [exact Hall|].
    intros q (o & Hq & Hname & Henv). simpl.
    destruct (collect_definitions_objects _ _ _ _ _ _ _ Hc q o Hq) as [Hq'|Hq'].
    - exists o. repeat split; assumption.
    - exists (setEnvironment o this). repeat split; assumption. }
  destruct (decide (length definitions = 0%nat)); [exact Hw|].
  destruct (create factory objs (module_map (environment w)) definitions)
    as [e|mod_]; exact Hw.
Qed.

(** X10. Staging keeps its invariant: if every vector of the object map is
    not empty and holds existing objects of the module it is staged under
    that refer back to this environment, this is still so after
    [registerFactory], [pushObject], [pushObjects], [setupModule] and
    [createModule] on this environment. *)
Theorem staged_here_preserved this (w : World McModule) :
  staged_here this w ->
  (forall factory, staged_here this (registerFactory factory w)) /\
  (forall object, staged_here this (pushObject this object w).2) /\
  (forall range, staged_here this (pushObjects this range w).2) /\
  (forall module, staged_here this (setupModule module w).2) /\
  (forall (Module : Type) name (dynamic_cast : McModule -> option Module)
          user_definitions,
     staged_here this
       (createModule name dynamic_cast this user_definitions w).2).
Proof.
  intros H. split; [|split; [|split; [|split]]].
  - intros factory. apply registerFactory_staged_here, H.
  - intros object. apply pushObject_staged_here, H.
  - intros range. apply pushObjects_staged_here, H.
  - intros module. apply setupModule_staged_here, H.
  - intros Module name dynamic_cast user_definitions.
    apply createModule_staged_here, H.
Qed.

(** *** Looking a module up *)

(** X11. A module that was set up is found: when a factory is registered,
    objects are staged and the factory creates a module from them, after
    [setupModule] the module is set and [getModule] returns it (cast to the
    class asked for). *)
Theorem setupModule_then_getModule (Module : Type) (name : string)
  (dynamic_cast : McModule -> option Module) (w : World McModule)
  factory definitions mod_ :
  factory_map (environment w) !! name = Some factory ->
  object_map (environment w) !! name = Some definitions ->
  create factory (objects w) (module_map (environment w)) definitions
    = inr mod_ ->
  (setupModule name w).1 = Return tt /\
  isModuleSet name (setupModule name w).2 = true /\
  getModule name dynamic_cast (setupModule name w).2
    = Return (dynamic_cast mod_).
Proof.
  intros Hf Ho Hc. unfold setupModule. rewrite Hf, Ho, Hc. simpl.
  unfold isModuleSet, getModule. simpl. rewrite lookup_insert_eq.
  repeat split.
Qed.

(** X12. [getModule] throws exactly when [isModuleSet] is false, and then
    [getObject] throws too; otherwise [getModule] returns the cast of the
    loaded module.  A [setupModule] that finds a factory but no staged
    object leaves the answer of [isModuleSet] as it was. *)
Theorem getModule_isModuleSet (Module Object : Type) (name : string)
  (dynamic_cast : McModule -> option Module)
  (Module_getObject : Module -> string -> Outcome (list Object))
  (id : string) (w : World McModule) :
  (isModuleSet name w = false <->
   getModule name dynamic_cast w =
   Throw (GeneralError
     ("The definition of the module *" +:+ name +:+ "* is missing on the input"))) /\
  (isModuleSet name w = true <->
   exists mod_, module_map (environment w) !! name = Some mod_ /\
                getModule name dynamic_cast w = Return (dynamic_cast mod_)) /\
  (isModuleSet name w = false ->
   getObject name dynamic_cast Module_getObject id w =
   Throw (GeneralError
     ("The module *" +:+ name +:+ "* is not loaded on the environment"))) /\
  (forall factory,
   factory_map (environment w) !! name = Some factory ->
   object_map (environment w) !! name = None ->
   isModuleSet name (setupModule name w).2 = isModuleSet name w).
Proof.
  unfold isModuleSet, getModule, getObject, setupModule.
  destruct (module_map (environment w) !! name) as [mod_|] eqn:Hm.
  - rewrite bool_decide_eq_true_2 by (eexists; reflexivity).
    split; [split; discriminate|].
    split; [split; [intros _; exists mod_; split; reflexivity | reflexivity]|].
    split; [discriminate|].
    intros factory -> ->. simpl. rewrite Hm.
    apply bool_decide_eq_true_2. eexists; reflexivity.
  - rewrite bool_decide_eq_false_2 by (intros [x Hx]; discriminate Hx).
    split; [split; reflexivity|].
    split; [split; [discriminate | intros (mod_ & Hx & _); discriminate Hx]|].
    split; [reflexivity|].
    intros factory -> ->. simpl. rewrite Hm.
    apply bool_decide_eq_false_2. intros [x Hx]; discriminate Hx.
Qed.

(** *** What [createModule] does to the objects *)

Lemma collect_definitions_store this module user_definitions :
  forall (objs : gmap ObjectPtr McObject) (acc : list ObjectPtr),
  Forall (fun p => is_Some (objs !! p)) user_definitions ->
  exists objs',
    collect_definitions this module user_definitions objs acc
    = Some (acc ++ filter (of_module module objs) user_definitions, objs') /\
    forall p,
      objs' !! p =
      if decide (p ∈ user_definitions /\ of_module module objs p)
      then (fun obj => setEnvironment obj this) <$> objs !! p
      else objs !! p.
Proof.
  induction user_definitions as [|it_obj rest IH];
    intros objs acc Hvalid; cbn [collect_definitions].
  - exists objs. rewrite filter_nil, app_nil_r. split; [reflexivity|].
    intros p. rewrite decide_False; [reflexivity|].
    intros [Hin _]. apply not_elem_of_nil in Hin. exact Hin.
  - apply Forall_cons in Hvalid as [[obj Hobj] Hrest].
    rewrite Hobj, filter_cons.
    destruct (decide (getModuleName obj = module)) as [Hname|Hname].
    + set (objs1 := <[it_obj := setEnvironment obj this]> objs).
      assert (Hvalid1 : Forall (fun p => is_Some (objs1 !! p)) rest).
      { eapply Forall_impl; [exact Hrest|]. intros p [o Ho]. simpl.
        unfold objs1. destruct (decide (it_obj = p)) as [->|Hp].
        - rewrite lookup_insert_eq. eexists; reflexivity.
        - rewrite lookup_insert_ne by exact Hp. eexists; exact Ho. }
      destruct (IH objs1 (acc ++ [it_obj]) Hvalid1) as (objs' & Hc & Hs).
      exists objs'. split.
      * rewrite Hc.
        rewrite decide_True
          by (unfold of_module; rewrite Hobj; simpl; congruence).
        rewrite <- app_assoc. simpl. do 4 f_equal.
        apply list_filter_iff. intros q. apply of_module_insert. exact Hobj.
      * intros p. rewrite Hs. destruct (decide (it_obj = p)) as [<-|Hp].
        -- unfold objs1. rewrite lookup_insert_eq, Hobj.
           rewrite (decide_True (P := it_obj ∈ it_obj :: rest /\ _)).
           ++ destruct (decide (it_obj ∈ rest /\ _)); reflexivity.
           ++ split; [apply elem_of_cons; left; reflexivity|].
              unfold of_module. rewrite Hobj. simpl. congruence.
        -- assert (Hl : objs1 !! p = objs !! p)
             by (unfold objs1; apply lookup_insert_ne; exact Hp).
           rewrite !Hl. apply decide_ext. rewrite elem_of_cons.
           unfold objs1.
           rewrite (of_module_insert module objs it_obj obj this p Hobj).
           split; [intros [Hin Hof]; split; [right|]; assumption|].
           intros [[->|Hin] Hof]; [contradiction Hp; reflexivity|].
           split; assumption.
    + destruct (IH objs acc Hrest) as (objs' & Hc & Hs).
      exists objs'. split.
      * rewrite Hc. rewrite decide_False; [reflexivity|].
        unfold of_module. rewrite Hobj. simpl. congruence.
      * intros p. rewrite Hs. apply decide_ext. rewrite elem_of_cons.
        split; [intros [Hin Hof]; split; [right|]; assumption|].
        intros [[->|Hin] Hof]; [|split; assumption].
        exfalso. unfold of_module in Hof. rewrite Hobj in Hof.
        simpl in Hof. congruence.
Qed.

(** X13. With a registered factory and pointers that all point to objects,
    [createModule] hands the factory the user's definitions that belong to
    the module, in the order given, and throws without calling it when
    there is none; in the store it sets the back-reference of exactly those
    definitions to this environment and writes nothing else. *)
Theorem createModule_effect (Module : Type) (name : string)
  (dynamic_cast : McModule -> option Module) this
  (user_definitions : list ObjectPtr) (w : World McModule) factory :
  factory_map (environment w) !! name = Some factory ->
  Forall (fun p => is_Some (objects w !! p)) user_definitions ->
  let r := createModule name dynamic_cast this user_definitions w in
  let definitions := filter (of_module name (objects w)) user_definitions in
  (forall p,
     objects r.2 !! p =
     if decide (p ∈ user_definitions /\ of_module name (objects w) p)
     then (fun obj => setEnvironment obj this) <$> objects w !! p
     else objects w !! p) /\
  r.1 =
    if decide (definitions = [])
    then Throw (GeneralError
           ("Cannot create module *" +:+ name +:+ "*. " +:+
            "The objects supplied by the user does not contain information about that module"))
    else match create factory (objects r.2) (module_map (environment w))
                 definitions with
         | inl e => Throw e
         | inr mod_ => Return (dynamic_cast mod_)
         end.
Proof.
  intros Hf Hvalid r definitions. unfold r, createModule. rewrite Hf.
  destruct (collect_definitions_store this name user_definitions
              (objects w) [] Hvalid) as (objs' & -> & Hs).
  simpl. fold definitions.
  destruct (decide (definitions = [])) as [Hnil|Hne].
  - rewrite Hnil. simpl. split; [exact Hs | reflexivity].
  - rewrite decide_False
      by (destruct definitions; [congruence | discriminate]).
    destruct (create factory objs' (module_map (environment w)) definitions)
      as [e|mod_] eqn:Hc; simpl; (split; [exact Hs|]).
    + rewrite Hc. reflexivity.
    + rewrite Hc. reflexivity.
Qed.

Lemma collect_definitions_staged this module definitions :
  forall (objs : gmap ObjectPtr McObject) (acc : list ObjectPtr),
  Forall (fun p => exists obj,
            objs !! p = Some obj /\ getModuleName obj = module /\
            getEnvironment obj = Some this) definitions ->
  collect_definitions this module definitions objs acc
  = Some (acc ++ definitions, objs).
Proof.
  induction definitions as [|it_obj rest IH]; intros objs acc Hall; simpl.
  - rewrite app_nil_r. reflexivity.
  - apply Forall_cons in Hall as [(obj & Hobj & Hname & Henv) Hrest].
    rewrite Hobj, decide_True by exact Hname.
    rewrite (setEnvironment_same obj this Henv).
    rewrite (insert_id objs it_obj obj Hobj).
    rewrite (IH objs (acc ++ [it_obj]) Hrest), <- app_assoc. reflexivity.
Qed.

(** X14. On the objects staged for a module [createModule] makes the call
    to the factory that [setupModule] makes: when the staging invariant
    holds and a factory is registered, creating the module from the staged
    vector returns what the factory gives for it and leaves the whole state
    as it was, and [setupModule] throws or returns with the same call. *)
Theorem createModule_of_staged (Module : Type) (name : string)
  (dynamic_cast : McModule -> option Module) this (w : World McModule)
  factory definitions :
  staged_here this w ->
  factory_map (environment w) !! name = Some factory ->
  object_map (environment w) !! name = Some definitions ->
  createModule name dynamic_cast this definitions w =
    (match create factory (objects w) (module_map (environment w))
             definitions with
     | inl e => Throw e
     | inr mod_ => Return (dynamic_cast mod_)
     end, w) /\
  (setupModule name w).1 =
    match create factory (objects w) (module_map (environment w))
          definitions with
    | inl e => Throw e
    | inr _ => Return tt
    end.
Proof.
  intros Hinv Hf Ho. destruct (Hinv name definitions Ho) as [Hne Hall].
  split.
  - unfold createModule. rewrite Hf.
    rewrite (collect_definitions_staged this name definitions (objects w) []
               Hall).
    simpl.
    rewrite decide_False
      by (destruct definitions; [congruence | discriminate]).
    destruct w as [objs env]. simpl.
    destruct (create factory objs (module_map env) definitions);
      reflexivity.
  - unfold setupModule. rewrite Hf, Ho.
    destruct (create factory (objects w) (module_map (environment w))
                definitions); reflexivity.
Qed.

End McEnvironmentMembers.

(** *** The further properties on the run *)

Lemma world0_valid :
  Forall (fun p => is_Some (objects world0 !! p)) [1%nat; 2%nat].
Proof. repeat constructor; eexists; reflexivity. Qed.

Lemma world1_valid :
  Forall (fun p => is_Some (objects world1 !! p)) [1%nat; 2%nat].
Proof. repeat constructor; eexists; vm_compute; reflexivity. Qed.

Lemma world1_staged_here : staged_here 0%nat world1.
Proof.
  apply (pushObject_staged_here 0%nat 1%nat).
  apply registerFactory_staged_here.
  apply (staged_here_empty 0%nat (objects world0)).
Qed.

Lemma pushObjects_staged_witness :
  exists w',
    pushObjects 0%nat [1%nat; 2%nat] world0 = (Return tt, w') /\
    object_map (environment w') !! "geometry" = Some [1%nat] /\
    object_map (environment w') !! "materials" = Some [2%nat].
Proof.
  destruct (pushObjects_staged 0%nat [1%nat; 2%nat] world0 world0_valid)
    as (w' & Hpush & _ & _ & Hstaged & _).
  exists w'. split; [exact Hpush|].
  split; rewrite Hstaged; vm_compute; reflexivity.
Defined.

Lemma staged_here_preserved_witness :
  staged_here 0%nat (pushObjects 0%nat [1%nat; 2%nat] world0).2.
Proof.
  apply (staged_here_preserved 0%nat world0).
  apply (staged_here_empty 0%nat (objects world0)).
Defined.

Lemma setupModule_then_getModule_witness :
  isModuleSet "geometry" (setupModule "geometry" world1).2 = true /\
  getModule "geometry" Some (setupModule "geometry" world1).2
  = Return (Some [1%nat]).
Proof.
  apply (setupModule_then_getModule (list ObjectPtr) "geometry" Some world1
           geometry_factory [1%nat] [1%nat]).
  - vm_compute. reflexivity.
  - vm_compute. reflexivity.
  - reflexivity.
Defined.

Lemma createModule_effect_witness :
  (createModule "geometry" Some 0%nat [1%nat; 2%nat] world1).1
  = Return (Some [1%nat]) /\
  objects (createModule "geometry" Some 0%nat [1%nat; 2%nat] world1).2
    !! 2%nat = Some (mkMcObject "materials" "m1" None).
Proof.
  destruct (createModule_effect (list ObjectPtr) "geometry" Some 0%nat
              [1%nat; 2%nat] world1 geometry_factory
              ltac:(vm_compute; reflexivity) world1_valid)
    as [Hstore Hresult].
  split.
  - rewrite Hresult. vm_compute. reflexivity.
  - rewrite Hstore. vm_compute. reflexivity.
Defined.

Lemma createModule_of_staged_witness :
  createModule "geometry" Some 0%nat [1%nat] world1
  = (Return (Some [1%nat]), world1).
Proof.
  apply (createModule_of_staged (list ObjectPtr) "geometry" Some 0%nat world1
           geometry_factory [1%nat] world1_staged_here).
  - vm_compute. reflexivity.
  - vm_compute. reflexivity.
Defined.

End EnvironmentTheory.

(** ** Universes *)

Module UniversesTheory.
Import Universes.

Lemma addCell_Some this cell st u c :
  universes st !! this = Some u ->
  cell_store st !! cell = Some c ->
  addCell this cell st =
  Some (mkStore
          (<[this := mkUniverse (user_id u) (parent u) (cells u ++ [cell])]>
             (universes st))
          (<[cell := setParent c this]> (cell_store st))).
Proof. intros Hu Hc. unfold addCell. rewrite Hu, Hc. reflexivity. Qed.

Lemma addCell_inv this cell st st' :
  addCell this cell st = Some st' ->
  exists u c,
    universes st !! this = Some u /\ cell_store st !! cell = Some c /\
    st' = mkStore
            (<[this := mkUniverse (user_id u) (parent u) (cells u ++ [cell])]>
               (universes st))
            (<[cell := setParent c this]> (cell_store st)).
Proof.
  unfold addCell.
  destruct (universes st !! this) as [u|]; [|discriminate].
  destruct (cell_store st !! cell) as [c|]; [|discriminate].
  intros [= <-]. exists u, c. repeat split.
Qed.

(** X15. Cells are kept in the order they are added: adding the cells of a
    range one after the other to a universe appends the range to its vector
    of cells, keeps its user id and parent, makes the universe the parent of
    each cell of the range, and leaves the other universes and the other
    cells as they were. *)
Theorem addCells_in_order this (range : list CellPtr) (st : Store) u :
  universes st !! this = Some u ->
  Forall (fun c => is_Some (cell_store st !! c)) range ->
  exists st',
    addCells this range st = Some st' /\
    universes st' !! this
      = Some (mkUniverse (user_id u) (parent u) (cells u ++ range)) /\
    (forall other, other <> this ->
       universes st' !! other = universes st !! other) /\
    (forall c,
       cell_store st' !! c =
       if decide (c ∈ range)
       then (fun C => setParent C this) <$> cell_store st !! c
       else cell_store st !! c).
Proof.
  revert st u. induction range as [|cell rest IH]; intros st u Hu Hvalid.
  - exists st. simpl. rewrite app_nil_r. destruct u. repeat split. exact Hu.
  - apply Forall_cons in Hvalid as [[c Hc] Hrest].
    simpl. rewrite (addCell_Some this cell st u c Hu Hc).
    set (st1 := mkStore _ _).
    assert (Hu1 : universes st1 !! this
                  = Some (mkUniverse (user_id u) (parent u)
                            (cells u ++ [cell])))
      by apply lookup_insert_eq.
    assert (Hvalid1 : Forall (fun q => is_Some (cell_store st1 !! q)) rest).
    { eapply Forall_impl; [exact Hrest|]. intros q [C HC]. simpl.
      destruct (decide (cell = q)) as [->|Hq].
      - rewrite lookup_insert_eq. eexists; reflexivity.
      - rewrite lookup_insert_ne by exact Hq. eexists; exact HC. }
    destruct (IH st1 _ Hu1 Hvalid1) as (st' & Hadd & Hthis & Hother & Hcells).
    exists st'. split; [exact Hadd|]. split; [|split].
    + rewrite Hthis. simpl. rewrite <- app_assoc. reflexivity.
    + intros other Hne. rewrite (Hother other Hne). simpl.
      apply lookup_insert_ne. congruence.
    + intros q. rewrite Hcells. simpl.
      destruct (decide (cell = q)) as [<-|Hq].
      * rewrite lookup_insert_eq, Hc.
        rewrite (decide_True (P := cell ∈ cell :: rest))
          by (apply elem_of_cons; left; reflexivity).
        destruct (decide (cell ∈ rest)); reflexivity.
      * rewrite lookup_insert_ne by exact Hq.
        apply decide_ext. rewrite elem_of_cons.
        split; [intros Hin; right; exact Hin|].
        intros [->|Hin]; [contradiction Hq; reflexivity | exact Hin].
Qed.

(** X16. Adding a cell that no universe lists keeps the geometry linked:
    if every listed cell has the universe that lists it as parent, this is
    still so after [addCell]. *)
Theorem addCell_keeps_linked this cell (st st' : Store) :
  linked st ->
  (forall u U, universes st !! u = Some U -> cell ∉ cells U) ->
  addCell this cell st = Some st' ->
  linked st'.
Proof.
  intros Hlinked Hfresh Hadd.
  apply addCell_inv in Hadd as (u0 & c0 & Hu0 & Hc0 & ->).
  intros u U c HU Hin. simpl in *.
  destruct (decide (this = u)) as [<-|Hne].
  - rewrite lookup_insert_eq in HU. injection HU as <-. simpl in Hin.
    apply elem_of_app in Hin as [Hin|Hin].
    + destruct (Hlinked this u0 c Hu0 Hin) as (C & HC & Hp).
      exists C. split; [|exact Hp].
      rewrite lookup_insert_ne; [exact HC|].
      intros <-. exact (Hfresh this u0 Hu0 Hin).
    + apply list_elem_of_singleton in Hin as ->.
      exists (setParent c0 this). rewrite lookup_insert_eq. repeat split.
  - rewrite lookup_insert_ne in HU by exact Hne.
    destruct (Hlinked u U c HU Hin) as (C & HC & Hp).
    exists C. split; [|exact Hp].
    rewrite lookup_insert_ne; [exact HC|].
    intros <-. exact (Hfresh u U HU Hin).
Qed.

(** X17. [addCell] does not take a cell out of the universe that lists it:
    a cell added to a second universe stays in the vector of the first while
    its parent becomes the second, so the geometry is no longer linked. *)
Theorem addCell_second_universe this first cell (st st' : Store) U :
  universes st !! first = Some U ->
  cell ∈ cells U ->
  first <> this ->
  addCell this cell st = Some st' ->
  universes st' !! first = Some U /\
  (exists C, cell_store st' !! cell = Some C /\ cell_parent C = Some this) /\
  ~ linked st'.
Proof.
  intros HU Hin Hne Hadd.
  apply addCell_inv in Hadd as (u0 & c0 & Hu0 & Hc0 & ->). simpl.
  assert (HU' : <[this := mkUniverse (user_id u0) (parent u0)
                            (cells u0 ++ [cell])]> (universes st) !! first
                = Some U)
    by (rewrite lookup_insert_ne by congruence; exact HU).
  assert (HC' : <[cell := setParent c0 this]> (cell_store st) !! cell
                = Some (setParent c0 this)) by apply lookup_insert_eq.
  split; [exact HU'|]. split.
  - exists (setParent c0 this). split; [exact HC' | reflexivity].
  - intros Hlinked.
    destruct (Hlinked first U cell HU' Hin) as (C & HC & Hp). simpl in HC.
    rewrite HC' in HC. injection HC as <-. simpl in Hp. congruence.
Qed.

(** *** The properties on a small geometry *)

Lemma store0_cells_nil u U :
  universes store0 !! u = Some U -> cells U = [].
Proof.
  unfold store0. simpl. intros H.
  apply lookup_insert_Some in H as [[_ <-]|[_ H]]; [reflexivity|].
  apply lookup_singleton_Some in H as [_ <-]. reflexivity.
Qed.

Lemma store0_linked : linked store0.
Proof.
  intros u U c HU Hin. rewrite (store0_cells_nil u U HU) in Hin.
  apply not_elem_of_nil in Hin. contradiction.
Qed.

Lemma addCells_in_order_witness :
  exists st',
    addCells 0%nat [10%nat; 11%nat] store0 = Some st' /\
    cells <$> universes st' !! 0%nat = Some [10%nat; 11%nat].
Proof.
  destruct (addCells_in_order 0%nat [10%nat; 11%nat] store0
              (Universe_ctor BASE None) eq_refl
              ltac:(repeat constructor; eexists; reflexivity))
    as (st' & Hadd & Hthis & _).
  exists st'. split; [exact Hadd|]. rewrite Hthis. reflexivity.
Defined.

Lemma addCell_keeps_linked_witness : linked store1.
Proof.
  apply (addCell_keeps_linked 0%nat 10%nat store0 store1 store0_linked).
  - intros u U HU. rewrite (store0_cells_nil u U HU). apply not_elem_of_nil.
  - vm_compute. reflexivity.
Defined.

Lemma addCell_second_universe_witness :
  exists st', addCell 1%nat 10%nat store1 = Some st' /\ ~ linked st'.
Proof.
  eexists. split; [reflexivity|].
  apply (addCell_second_universe 1%nat 0%nat 10%nat store1 _
           (mkUniverse BASE None [10%nat])).
  - reflexivity.
  - apply elem_of_cons. left. reflexivity.
  - discriminate.
  - reflexivity.
Defined.

End UniversesTheory.
